(** * Engineering calculation and comparison core

    A shallow embedding of the numeric parts of the Mechanical Engineer
    Helper application and the properties its specification states about
    them:

    - [Beam], [Beam64]: the closed-form beam solver of
      [app/lib/calculations.ts], over the reals and over binary64;
    - [MaterialsTable], [ComparePage]: the two unit-conversion paths
      (the materials table component and
      [app/materials/compare/MaterialCompareClientPage.tsx]);
    - [Radar]: the radar-chart normaliser of
      [app/materials/compare/ComparisonChartsContainer.tsx];
    - [Seed]: the shear-modulus helper of [prisma/seed.ts];
    - [TableControls], [CompareRoute]: selection, paging and sorting of
      the materials table, and the way from its selection to the chart
      data of the compare page;
    - [BarChart], [RadarTooltip]: the bar chart and the tooltip of the
      radar chart;
    - [BeamVisualization], [Home], [MaterialSelect]: the beam drawing, the
      home page helpers and the material picker.

    Modelling conventions.

    - A TypeScript [number] is read in two ways.  In the general theorems
      it is a real number ([R]): arithmetic is exact, there is no
      rounding, no NaN and no infinity, and [Math.sqrt] is [sqrt] (which
      the source only applies to non-negative arguments on the paths
      studied here).  A theorem whose conclusion is an equation or a
      strict bound between differently computed numbers is therefore a
      statement about the formulas of the source in exact arithmetic;
      the program, which computes in binary64, can differ from it by
      rounding.  In [Beam64] a [number] is a binary64 float and the
      solver is the same code with the operations of the machine; it is
      evaluated at inputs where rounding or overflow makes the program
      leave the exact result.
    - [number | null | undefined] is [option R]; [typeof v === 'number']
      is [v = Some _].
    - A call completes normally with a value or abruptly with an exception
      ([completion]); [console.error] appends a line to the console
      component of the [outcome].
    - A JavaScript object used as a dictionary with run-time keys is a
      [gmap string _] holding its own properties.  Where the source
      writes under a key taken from the data (the radar chart writes each
      score under the material's name), the write is modelled with the
      accessor [__proto__] that every object literal inherits. *)

From Stdlib Require Import PrimFloat.
From Stdlib Require Import Reals Lra Lia List Permutation.
From stdpp Require Import base strings gmap.
Import ListNotations.

Local Open Scope R_scope.
Local Open Scope string_scope.

(** ** Numbers: the comparison operators of the source as booleans *)

Definition num_eq (x y : R) : bool := if Req_EM_T x y then true else false.
Definition num_lt (x y : R) : bool := if Rlt_dec x y then true else false.
Definition num_le (x y : R) : bool := if Rle_dec x y then true else false.
Definition num_gt (x y : R) : bool := num_lt y x.
Definition num_ge (x y : R) : bool := num_le y x.

Declare Scope js_scope.
Delimit Scope js_scope with js.
Notation "x === y" := (num_eq x y) (at level 70, no associativity) : js_scope.
Notation "x !== y" := (negb (num_eq x y)) (at level 70, no associativity) : js_scope.
Notation "x <? y" := (num_lt x y) (at level 70, no associativity) : js_scope.
Notation "x <=? y" := (num_le x y) (at level 70, no associativity) : js_scope.
Notation "x >? y" := (num_gt x y) (at level 70, no associativity) : js_scope.
Notation "x >=? y" := (num_ge x y) (at level 70, no associativity) : js_scope.
Local Open Scope js_scope.

(** ** Completions and the console *)

(** The exceptions the development speaks about.  [TypeError] is what the
    source raises when it reads a field of [undefined]; the other two are
    the failure names of the specification. *)
Inductive exn : Set :=
  | TypeError
  | InvalidInputError
  | ConfigurationError.

Inductive completion (A : Type) : Type :=
  | Normal (v : A)
  | Throw (e : exn).
Arguments Normal {A} v.
Arguments Throw {A} e.

Record outcome (A : Type) : Type := Outcome {
  console : list string;
  result : completion A
}.
Arguments Outcome {A} _ _.
Arguments console {A} _.
Arguments result {A} _.

(** Sequencing: the console lines accumulate in order, and an exception
    skips the rest. *)
#[export] Instance outcome_ret : MRet outcome :=
  fun A (v : A) => Outcome [] (Normal v).

#[export] Instance outcome_bind : MBind outcome :=
  fun A B (k : A -> outcome B) (m : outcome A) =>
    match result m with
    | Normal v => let r := k v in Outcome (console m ++ console r) (result r)
    | Throw e => Outcome (console m) (Throw e)
    end.

Definition throw {A} (e : exn) : outcome A := Outcome [] (Throw e).

Definition console_error (msg : string) : outcome unit :=
  Outcome [msg] (Normal tt).

(** A call fails with [e] when it completes abruptly with [e]. *)
Definition fails_with {A} (e : exn) (r : outcome A) : Prop :=
  result r = Throw e.


(** ** The beam solver ([app/lib/calculations.ts]) *)

Module Beam.

(** Branch used for [x <= a] (between the left support and the load). *)
Definition deflection_left (L P E I a x : R) : R :=
  let b := L - a in
  (P * b * x) / (6 * E * I * L) * (L*L - b*b - x*x).

(** Branch used for [x > a] (between the load and the right support). *)
Definition deflection_right (L P E I a x : R) : R :=
  (P * a * (L - x)) / (6 * E * I * L) * (L*L - a*a - (L-x)*(L-x)).

Definition calculateSimpleBeamPointLoadDeflection
    (L P E I a x : R) : outcome R :=
  if (E === 0) || (I === 0) || (L === 0) then mret 0
  else if (a <? 0) || (a >? L) then
    console_error "Load position 'a' must be between 0 and L." ;;
    mret 0
  else if (x <? 0) || (x >? L) then
    console_error "Calculation point 'x' must be between 0 and L." ;;
    mret 0
  else if x <=? a then mret (deflection_left L P E I a x)
  else mret (deflection_right L P E I a x).

Record MaxDeflection : Type := {
  maxDeflection : R;
  location : R
}.

(** The location the source computes before it evaluates the deflection
    there. *)
Definition x_max (L a : R) : R :=
  let b := L - a in
  if a <=? b then sqrt ((L*L - b*b) / 3)
  else L - sqrt ((L*L - a*a) / 3).

(** [None] is the source's [null]. *)
Definition calculateSimpleBeamMaxDeflection
    (L P E I a : R) : outcome (option MaxDeflection) :=
  if (E === 0) || (I === 0) || (L === 0) || (P === 0) then
    mret (Some {| maxDeflection := 0; location := L / 2 |})
  else if (a <=? 0) || (a >=? L) then
    console_error "Load position 'a' must be between 0 and L (exclusive)." ;;
    mret None
  else
    let xm := x_max L a in
    d ← calculateSimpleBeamPointLoadDeflection L P E I a xm;
    mret (Some {| maxDeflection := d; location := xm |}).

Definition calculateBeamDeflection
    (length load youngsModulus inertia : R) : outcome R :=
  calculateSimpleBeamPointLoadDeflection
    length load youngsModulus inertia (length / 2) (length / 2).

End Beam.

(** *** The solver as the program computes it: binary64

    The same two functions with [number] read as a binary64 float:
    [*], [/], [+], [-] and [Math.sqrt] are the correctly rounded
    operations of IEEE 754, [===], [<] and [<=] its comparisons. *)

Declare Scope js64_scope.
Delimit Scope js64_scope with js64.
Notation "x === y" := (PrimFloat.eqb x y)
  (at level 70, no associativity) : js64_scope.
Notation "x <? y" := (PrimFloat.ltb x y)
  (at level 70, no associativity) : js64_scope.
Notation "x <=? y" := (PrimFloat.leb x y)
  (at level 70, no associativity) : js64_scope.
Notation "x >? y" := (PrimFloat.ltb y x)
  (at level 70, no associativity) : js64_scope.
Notation "x >=? y" := (PrimFloat.leb y x)
  (at level 70, no associativity) : js64_scope.

Module Beam64.

Local Open Scope float_scope.
Local Open Scope js64_scope.

Definition Math_sqrt (x : float) : float := PrimFloat.sqrt x.

(** Branch used for [x <= a]. *)
Definition deflection_left (L P E I a x : float) : float :=
  let b := L - a in
  (P * b * x) / (6 * E * I * L) * (L*L - b*b - x*x).

(** Branch used for [x > a]. *)
Definition deflection_right (L P E I a x : float) : float :=
  (P * a * (L - x)) / (6 * E * I * L) * (L*L - a*a - (L-x)*(L-x)).

Definition calculateSimpleBeamPointLoadDeflection
    (L P E I a x : float) : outcome float :=
  if (E === 0) || (I === 0) || (L === 0) then mret 0
  else if (a <? 0) || (a >? L) then
    console_error "Load position 'a' must be between 0 and L." ;;
    mret 0
  else if (x <? 0) || (x >? L) then
    console_error "Calculation point 'x' must be between 0 and L." ;;
    mret 0
  else if x <=? a then mret (deflection_left L P E I a x)
  else mret (deflection_right L P E I a x).

Record MaxDeflection : Type := {
  maxDeflection : float;
  location : float
}.

(** The location the source computes before it evaluates the deflection
    there. *)
Definition x_max (L a : float) : float :=
  let b := L - a in
  if a <=? b then Math_sqrt ((L*L - b*b) / 3)
  else L - Math_sqrt ((L*L - a*a) / 3).

(** [None] is the source's [null]. *)
Definition calculateSimpleBeamMaxDeflection
    (L P E I a : float) : outcome (option MaxDeflection) :=
  if (E === 0) || (I === 0) || (L === 0) || (P === 0) then
    mret (Some {| maxDeflection := 0; location := L / 2 |})
  else if (a <=? 0) || (a >=? L) then
    console_error "Load position 'a' must be between 0 and L (exclusive)." ;;
    mret None
  else
    let xm := x_max L a in
    d ← calculateSimpleBeamPointLoadDeflection L P E I a xm;
    mret (Some {| maxDeflection := d; location := xm |}).

End Beam64.

(** ** Unit conversion *)

(** [toLocaleString] is kept symbolic: a formatted cell is either a fixed
    text or the number handed to [toLocaleString] with its two options. *)
Inductive formatted : Type :=
  | Text (s : string)
  | LocaleString (value : R) (minimumFractionDigits maximumFractionDigits : nat).

Record UnitInfo : Type := {
  factor : R;
  precision : nat
}.

(** An object literal with fixed string keys, in source order. *)
Definition UnitConversionFactors : Type := list (string * UnitInfo).

Fixpoint lookup_unit (tbl : UnitConversionFactors) (unitName : string)
    : option UnitInfo :=
  match tbl with
  | [] => None
  | (k, info) :: rest =>
      if String.eqb k unitName then Some info else lookup_unit rest unitName
  end.

Inductive UnitType : Set := Density | Modulus | Strength.

(** The [selectedUnits] state both pages close over. *)
Record SelectedUnits : Type := {
  sel_density : string;
  sel_modulus : string;
  sel_strength : string
}.

Definition selected (sel : SelectedUnits) (unitType : UnitType) : string :=
  match unitType with
  | Density => sel_density sel
  | Modulus => sel_modulus sel
  | Strength => sel_strength sel
  end.

(** Reading [.factor] or [.precision] of an entry that is not in the table
    is a read on [undefined].  (This is the reading of [factors[unit]] for
    the unit names of the tables, which are the only ones the pages
    offer, and for every name that is not a property inherited from
    [Object.prototype]; under an inherited name such as [constructor] the
    source finds a function instead, whose [factor] is [undefined], and
    the quotient is NaN, which the real numbers lack.  The properties
    below speak about the units of the tables.) *)
Definition the_unit (tbl : UnitConversionFactors) (unitName : string)
    : outcome UnitInfo :=
  match lookup_unit tbl unitName with
  | Some info => mret info
  | None => throw TypeError
  end.

(** *** The materials table component *)

Module MaterialsTable.

Definition densityUnits : UnitConversionFactors :=
  [ ("kg/m³", {| factor := 1; precision := 0 |});
    ("g/cm³", {| factor := 0.001; precision := 3 |});
    ("lb/ft³", {| factor := 0.0160185; precision := 3 |}) ].

Definition modulusUnits : UnitConversionFactors :=
  [ ("GPa", {| factor := 1e9; precision := 5 |});
    ("MPa", {| factor := 1e6; precision := 2 |});
    ("ksi", {| factor := 6.89476e6; precision := 3 |});
    ("psi", {| factor := 6894.76; precision := 0 |}) ].

Definition strengthUnits : UnitConversionFactors :=
  [ ("GPa", {| factor := 1e9; precision := 5 |});
    ("MPa", {| factor := 1e6; precision := 2 |});
    ("ksi", {| factor := 6.89476e6; precision := 3 |});
    ("psi", {| factor := 6894.76; precision := 0 |}) ].

Definition conversionFactors (unitType : UnitType) : UnitConversionFactors :=
  match unitType with
  | Density => densityUnits
  | Modulus => modulusUnits
  | Strength => strengthUnits
  end.

Definition convertValue (selectedUnits : SelectedUnits)
    (value : option R) (unitType : UnitType) : outcome formatted :=
  match value with
  | None => mret (Text "N/A")
  | Some siValue =>
      unitInfo ← the_unit (conversionFactors unitType)
                          (selected selectedUnits unitType);
      let converted := siValue / factor unitInfo in
      mret (LocaleString converted 0 (precision unitInfo))
  end.

End MaterialsTable.

(** *** The compare page ([MaterialCompareClientPage.tsx]) *)

Module ComparePage.

Definition densityUnits : UnitConversionFactors :=
  [ ("kg/m³", {| factor := 1; precision := 0 |});
    ("g/cm³", {| factor := 1000; precision := 3 |});
    ("lb/ft³", {| factor := 16.0185; precision := 3 |}) ].

Definition modulusUnits : UnitConversionFactors :=
  [ ("GPa", {| factor := 1e9; precision := 5 |});
    ("MPa", {| factor := 1e6; precision := 2 |});
    ("ksi", {| factor := 6.89476e6; precision := 3 |});
    ("psi", {| factor := 6894.76; precision := 0 |}) ].

Definition strengthUnits : UnitConversionFactors :=
  [ ("MPa", {| factor := 1e6; precision := 2 |});
    ("ksi", {| factor := 6.89476e6; precision := 3 |});
    ("psi", {| factor := 6894.76; precision := 0 |});
    ("GPa", {| factor := 1e9; precision := 5 |}) ].

Definition conversionFactors (unitType : UnitType) : UnitConversionFactors :=
  match unitType with
  | Density => densityUnits
  | Modulus => modulusUnits
  | Strength => strengthUnits
  end.

Definition calculateConvertedValue (selectedUnits : SelectedUnits)
    (value : option R) (unitType : UnitType) : outcome (option R) :=
  match value with
  | None => mret None
  | Some v =>
      let factors := conversionFactors unitType in
      let selectedUnit := selected selectedUnits unitType in
      unitInfo ← the_unit factors selectedUnit;
      mret (Some (v / factor unitInfo))
  end.

Definition formatConvertedValueForDisplay (selectedUnits : SelectedUnits)
    (value : option R) (unitType : UnitType) : outcome formatted :=
  match value with
  | None => mret (Text "N/A")
  | Some v =>
      let factors := conversionFactors unitType in
      let selectedUnit := selected selectedUnits unitType in
      unitInfo ← the_unit factors selectedUnit;
      let convertedValue := v / factor unitInfo in
      mret (LocaleString convertedValue 0 (precision unitInfo))
  end.

End ComparePage.

(** *** The canonical unit table of the specification *)

Module Canonical.

(** The table as the specification prints it: factor = SI units per one
    display unit; modulus and strength share their rows. *)
Definition table (unitType : UnitType) : UnitConversionFactors :=
  match unitType with
  | Density =>
      [ ("kg/m³", {| factor := 1; precision := 0 |});
        ("g/cm³", {| factor := 1000; precision := 3 |});
        ("lb/ft³", {| factor := 16.0185; precision := 3 |}) ]
  | Modulus | Strength =>
      [ ("GPa", {| factor := 1e9; precision := 5 |});
        ("MPa", {| factor := 1e6; precision := 2 |});
        ("ksi", {| factor := 6.89476e6; precision := 3 |});
        ("psi", {| factor := 6894.76; precision := 0 |}) ]
  end.

Definition registered (unitType : UnitType) (unitName : string) : Prop :=
  In unitName (map fst (table unitType)).

(** [display = si / factor]. *)
Definition display (unitType : UnitType) (unitName : string) (si : R)
    : option R :=
  match lookup_unit (table unitType) unitName with
  | Some info => Some (si / factor info)
  | None => None
  end.

(** The selection in which [unitType] shows [unitName]; the other two
    classes keep the pages' initial units. *)
Definition selecting (unitType : UnitType) (unitName : string)
    : SelectedUnits :=
  match unitType with
  | Density =>
      {| sel_density := unitName; sel_modulus := "GPa"; sel_strength := "MPa" |}
  | Modulus =>
      {| sel_density := "kg/m³"; sel_modulus := unitName; sel_strength := "MPa" |}
  | Strength =>
      {| sel_density := "kg/m³"; sel_modulus := "GPa"; sel_strength := unitName |}
  end.

End Canonical.

(** ** The radar-chart normaliser ([ComparisonChartsContainer.tsx]) *)

Module Radar.

Record Material : Type := {
  id : string;
  name : string;
  density : option R;
  youngsModulus : option R;
  yieldStrength : option R;
  ultimateTensileStrength : option R;
  poissonsRatio : option R;
  shearModulus : option R;
  thermalExpansionCoefficient : option R;
  relativeCost : option R;
  specificStrength : option R;
  specificModulus : option R
}.

(** [mat[key]] when it is a number; [None] when the key is absent, [null],
    [undefined] or holds a string. *)
Definition prop (mat : Material) (key : string) : option R :=
  if String.eqb key "density" then density mat
  else if String.eqb key "youngsModulus" then youngsModulus mat
  else if String.eqb key "yieldStrength" then yieldStrength mat
  else if String.eqb key "ultimateTensileStrength" then ultimateTensileStrength mat
  else if String.eqb key "poissonsRatio" then poissonsRatio mat
  else if String.eqb key "shearModulus" then shearModulus mat
  else if String.eqb key "thermalExpansionCoefficient" then thermalExpansionCoefficient mat
  else if String.eqb key "relativeCost" then relativeCost mat
  else if String.eqb key "specificStrength" then specificStrength mat
  else if String.eqb key "specificModulus" then specificModulus mat
  else None.

Definition set_specificStrength (v : R) (mat : Material) : Material :=
  {| id := id mat; name := name mat; density := density mat;
     youngsModulus := youngsModulus mat; yieldStrength := yieldStrength mat;
     ultimateTensileStrength := ultimateTensileStrength mat;
     poissonsRatio := poissonsRatio mat; shearModulus := shearModulus mat;
     thermalExpansionCoefficient := thermalExpansionCoefficient mat;
     relativeCost := relativeCost mat;
     specificStrength := Some v;
     specificModulus := specificModulus mat |}.

Definition set_specificModulus (v : R) (mat : Material) : Material :=
  {| id := id mat; name := name mat; density := density mat;
     youngsModulus := youngsModulus mat; yieldStrength := yieldStrength mat;
     ultimateTensileStrength := ultimateTensileStrength mat;
     poissonsRatio := poissonsRatio mat; shearModulus := shearModulus mat;
     thermalExpansionCoefficient := thermalExpansionCoefficient mat;
     relativeCost := relativeCost mat;
     specificStrength := specificStrength mat;
     specificModulus := Some v |}.

Record RadarProperty : Type := {
  key : string;
  label : string;
  higherIsBetter : bool
}.

Definition radarProperties : list RadarProperty :=
  [ {| key := "youngsModulus"; label := "E Modulus"; higherIsBetter := true |};
    {| key := "ultimateTensileStrength"; label := "UTS"; higherIsBetter := true |};
    {| key := "yieldStrength"; label := "Yield Str."; higherIsBetter := true |};
    {| key := "density"; label := "Density"; higherIsBetter := false |};
    {| key := "specificModulus"; label := "Specific Mod."; higherIsBetter := true |};
    {| key := "specificStrength"; label := "Specific Str."; higherIsBetter := true |};
    {| key := "thermalExpansionCoefficient"; label := "Therm. Exp.";
       higherIsBetter := false |} ].

(** Step 1: the clone with the derived properties added where computable. *)
Definition process (mat : Material) : Material :=
  let processedMat := mat in
  let processedMat :=
    match yieldStrength mat, density mat with
    | Some ys, Some d =>
        if d !== 0 then set_specificStrength ((ys / d) / 1000) processedMat
        else processedMat
    | _, _ => processedMat
    end in
  let processedMat :=
    match youngsModulus mat, density mat with
    | Some e, Some d =>
        if d !== 0 then set_specificModulus ((e / d) / 1e6) processedMat
        else processedMat
    | _, _ => processedMat
    end in
  processedMat.

Definition processedMaterials (materials : list Material) : list Material :=
  map process materials.

(** [Math.min(...)] and [Math.max(...)] of a non-empty argument list. *)
Definition Math_min (v : R) (rest : list R) : R := fold_left Rmin rest v.
Definition Math_max (v : R) (rest : list R) : R := fold_left Rmax rest v.

(** The numbers found under [key]: the [map] followed by the [filter]. *)
Definition values (processed : list Material) (key : string) : list R :=
  omap (fun mat => prop mat key) processed.

(** The two numbers the first loop of step 2 stores for an axis: the
    extrema of the values when there are some, [0] and [1] otherwise. *)
Definition min_max (values : list R) : R * R :=
  match values with
  | v :: rest => (Math_min v rest, Math_max v rest)
  | [] => (0, 1)
  end.

(** Step 2, first loop: one iteration, on the pair ([mins], [maxs]). *)
Definition extrema_step (processed : list Material)
    (st : gmap string R * gmap string R) (p : RadarProperty)
    : gmap string R * gmap string R :=
  let mm := min_max (values processed (key p)) in
  (<[key p := fst mm]> (fst st), <[key p := snd mm]> (snd st)).

Definition extrema (processed : list Material)
    : gmap string R * gmap string R :=
  fold_left (extrema_step processed) radarProperties (∅, ∅).

(** The body of the inner loop: the score of one material on one axis.  A
    key missing from [mins] or [maxs] reads as [undefined], on which both
    tests of the source are false. *)
Definition normalizedValue (mins maxs : gmap string R)
    (key : string) (higherIsBetter : bool) (mat : Material) : R :=
  match prop mat key with
  | Some rawValue =>
      match mins !! key, maxs !! key with
      | Some min, Some max =>
          let range := max - min in
          if range >? 0 then
            let normalizedValue := ((rawValue - min) / range) * 100 in
            if negb higherIsBetter then 100 - normalizedValue
            else normalizedValue
          else if rawValue === min then (if higherIsBetter then 100 else 0)
          else 50
      | _, _ => 50
      end
  | None => 50
  end.

Inductive cell : Type :=
  | CStr (s : string)
  | CNum (n : R).

(** [obj[key] = value] for a number [value], on an object created by an
    object literal.  The key [__proto__] names the accessor the object
    inherits from [Object.prototype], whose setter ignores a value that
    is neither an object nor [null]: nothing is stored.  Every other key
    becomes, or updates, an own property. *)
Definition assign_number (obj : gmap string cell) (key : string) (value : R)
    : gmap string cell :=
  if String.eqb key "__proto__" then obj else <[key := CNum value]> obj.

(** One axis of the chart: [subject], [fullMark], then one entry per
    material, written under the material's name. *)
Definition axisPoint (processed : list Material) (mins maxs : gmap string R)
    (p : RadarProperty) : gmap string cell :=
  fold_left
    (fun axisPoint mat =>
       assign_number axisPoint (name mat)
         (normalizedValue mins maxs (key p) (higherIsBetter p) mat))
    processed
    (<["fullMark" := CNum 100]> (<["subject" := CStr (label p)]> ∅)).

(** The materials whose entry the inner loop stores: all but those named
    [__proto__]. *)
Definition stored (processed : list Material) : list Material :=
  List.filter (fun mat => negb (String.eqb (name mat) "__proto__")) processed.

Definition normalizedData (materials : list Material)
    : list (gmap string cell) :=
  let processed := processedMaterials materials in
  let st := extrema processed in
  map (axisPoint processed (fst st) (snd st)) radarProperties.

(** The score a material gets on an axis of the chart drawn for
    [materials]. *)
Definition score (materials : list Material) (p : RadarProperty)
    (mat : Material) : R :=
  let processed := processedMaterials materials in
  let st := extrema processed in
  normalizedValue (fst st) (snd st) (key p) (higherIsBetter p) (process mat).

(** *** The scoring rule in the words of the specification *)

(** [is_min_of vs m]: [m] is the minimum of the defined values [vs]. *)
Definition is_min_of (vs : list R) (m : R) : Prop :=
  In m vs /\ forall v, In v vs -> m <= v.

Definition is_max_of (vs : list R) (m : R) : Prop :=
  In m vs /\ forall v, In v vs -> v <= m.


(** *** Sample data *)

(** A material with only a Young's modulus and a density on record. *)
Definition sample (id name : string) (youngsModulus density : option R)
    : Material :=
  {| id := id; name := name; density := density;
     youngsModulus := youngsModulus; yieldStrength := None;
     ultimateTensileStrength := None; poissonsRatio := None;
     shearModulus := None; thermalExpansionCoefficient := None;
     relativeCost := None; specificStrength := None;
     specificModulus := None |}.

Definition sample_low : Material := sample "m1" "Low" (Some 10) None.
Definition sample_mid : Material := sample "m2" "Mid" (Some 20) None.
Definition sample_high : Material := sample "m3" "High" (Some 30) None.
Definition sample_blank : Material := sample "m4" "Blank" None None.

Definition samples : list Material :=
  [sample_low; sample_mid; sample_high; sample_blank].

Definition youngsModulus_axis : RadarProperty :=
  {| key := "youngsModulus"; label := "E Modulus"; higherIsBetter := true |}.

End Radar.

(** ** The seeding script ([prisma/seed.ts]) *)

Module Seed.

Record MaterialData : Type := {
  name : string;
  category : string;
  density : option R;
  youngsModulus : option R;
  ultimateTensileStrength : option R;
  thermalExpansionCoefficient : option R;
  yieldStrength : option R;
  poissonsRatio : option R;
  shearModulus : option R;
  elongationAtBreak : option R;
  compressiveStrength : option R;
  flexuralStrength : option R;
  fractureToughness : option R;
  meltingPoint : option R;
  hdt : option R;
  maxServiceTemperature : option R;
  fiberType : option string;
  matrixType : option string
}.

Definition calculateShearModulus (youngsModulus poissonsRatio : option R)
    : option R :=
  match youngsModulus, poissonsRatio with
  | Some youngsModulus, Some poissonsRatio =>
      if poissonsRatio <=? -1 then None
      else Some (youngsModulus / (2 * (1 + poissonsRatio)))
  | _, _ => None
  end.

Inductive value : Type :=
  | VNum (n : R)
  | VStr (s : string).

(** [mat[key]] for the keys of [optionalFields]; [None] is [null]. *)
Definition field (mat : MaterialData) (key : string) : option value :=
  if String.eqb key "density" then VNum <$> density mat
  else if String.eqb key "youngsModulus" then VNum <$> youngsModulus mat
  else if String.eqb key "ultimateTensileStrength" then VNum <$> ultimateTensileStrength mat
  else if String.eqb key "thermalExpansionCoefficient" then VNum <$> thermalExpansionCoefficient mat
  else if String.eqb key "yieldStrength" then VNum <$> yieldStrength mat
  else if String.eqb key "poissonsRatio" then VNum <$> poissonsRatio mat
  else if String.eqb key "shearModulus" then VNum <$> shearModulus mat
  else if String.eqb key "elongationAtBreak" then VNum <$> elongationAtBreak mat
  else if String.eqb key "compressiveStrength" then VNum <$> compressiveStrength mat
  else if String.eqb key "flexuralStrength" then VNum <$> flexuralStrength mat
  else if String.eqb key "fractureToughness" then VNum <$> fractureToughness mat
  else if String.eqb key "meltingPoint" then VNum <$> meltingPoint mat
  else if String.eqb key "hdt" then VNum <$> hdt mat
  else if String.eqb key "maxServiceTemperature" then VNum <$> maxServiceTemperature mat
  else if String.eqb key "fiberType" then VStr <$> fiberType mat
  else if String.eqb key "matrixType" then VStr <$> matrixType mat
  else None.

Definition optionalFields : list string :=
  [ "density"; "youngsModulus"; "ultimateTensileStrength";
    "thermalExpansionCoefficient"; "yieldStrength"; "poissonsRatio";
    "elongationAtBreak"; "compressiveStrength"; "flexuralStrength";
    "fractureToughness"; "meltingPoint"; "hdt"; "maxServiceTemperature";
    "fiberType"; "matrixType" ].

Definition createMaterialPayload (mat : MaterialData)
    (calculatedShearModulus : option R) : gmap string value :=
  let payload : gmap string value :=
    <["category" := VStr (category mat)]> (<["name" := VStr (name mat)]> ∅) in
  let payload :=
    fold_left
      (fun payload key =>
         match field mat key with
         | Some v => <[key := v]> payload
         | None => payload
         end)
      optionalFields payload in
  let finalShearModulus :=
    match shearModulus mat with
    | Some g => Some g
    | None => calculatedShearModulus
    end in
  match finalShearModulus with
  | Some g => <["shearModulus" := VNum g]> payload
  | None => payload
  end.

(** The payload the seeding loop of [main] upserts for one material. *)
Definition seed_payload (mat : MaterialData) : gmap string value :=
  let calculatedShearModulus :=
    calculateShearModulus (youngsModulus mat) (poissonsRatio mat) in
  createMaterialPayload mat calculatedShearModulus.

(** *** Sample data: an entry of [materialsToSeed] that supplies its own
    shear modulus. *)
Definition soda_lime_glass : MaterialData :=
  {| name := "Soda–Lime Glass (Annealed)";
     category := "Ceramic";
     density := Some 2400;
     youngsModulus := Some 7.1e10;
     ultimateTensileStrength := Some 4.1e7;
     thermalExpansionCoefficient := Some 8.8e-6;
     yieldStrength := None;
     poissonsRatio := Some 0.23;
     shearModulus := Some 2.9e10;
     elongationAtBreak := None;
     compressiveStrength := Some 3.3e8;
     flexuralStrength := Some 1.0e8;
     fractureToughness := Some 0.75;
     meltingPoint := Some 1040;
     hdt := None;
     maxServiceTemperature := Some 300;
     fiberType := None;
     matrixType := None |}.

End Seed.

(** ** The materials table: selection, paging and sorting controls *)

Module TableControls.

Definition MAX_COMPARE_ITEMS : nat := 6.

(** [Array.prototype.includes] on an array of strings. *)
Definition includes (ids : list string) (id : string) : bool :=
  existsb (String.eqb id) ids.

(** The state update of [handleSelectMaterial]. *)
Definition handleSelectMaterial (id : string) (prev : list string)
    : list string :=
  if includes prev id then
    List.filter (fun selectedId => negb (String.eqb selectedId id)) prev
  else if (length prev <? MAX_COMPARE_ITEMS)%nat then prev ++ [id]
  else prev.

(** [Array.prototype.join]. *)
Fixpoint join (sep : string) (l : list string) : string :=
  match l with
  | [] => ""
  | x :: rest =>
      match rest with
      | [] => x
      | _ :: _ => x ++ sep ++ join sep rest
      end
  end.

(** [handleCompare]: the route pushed to the router, if any. *)
Definition handleCompare (selectedIds : list string) : option string :=
  if (0 <? length selectedIds)%nat then
    let query := join "," selectedIds in
    Some ("/materials/compare?ids=" ++ query)
  else None.

(** [Math.ceil (n / k)] on integers, for a positive [k]. *)
Definition Math_ceil_div (n k : Z) : Z := (- ((- n) / k))%Z.

(** [Array.prototype.slice (start, end)], negative indices included. *)
Definition slice {A : Type} (start end_ : Z) (l : list A) : list A :=
  let len := Z.of_nat (length l) in
  let k := if (start <? 0)%Z then Z.max (len + start) 0 else Z.min start len in
  let final := if (end_ <? 0)%Z then Z.max (len + end_) 0 else Z.min end_ len in
  firstn (Z.to_nat (final - k)) (skipn (Z.to_nat k) l).

Definition totalPages {A : Type} (sortedMaterials : list A) (itemsPerPage : Z)
    : Z :=
  let totalItems := Z.of_nat (length sortedMaterials) in
  Math_ceil_div totalItems itemsPerPage.

Definition paginatedMaterials {A : Type} (sortedMaterials : list A)
    (currentPage itemsPerPage : Z) : list A :=
  let startIndex := ((currentPage - 1) * itemsPerPage)%Z in
  let endIndex := (startIndex + itemsPerPage)%Z in
  slice startIndex endIndex sortedMaterials.

Definition handleNextPage (totalPages prev : Z) : Z :=
  Z.min (prev + 1) totalPages.

Definition handlePrevPage (prev : Z) : Z := Z.max (prev - 1) 1.

Inductive SortDirection : Set := asc | desc.

(** The value of a material under a sortable column. *)
Inductive cell : Type :=
  | Null
  | Num (n : R)
  | Str (s : string).

(** The comparator handed to [sort].  [localeCompare] is the built-in
    string collation. *)
Definition compare (localeCompare : string -> string -> R)
    (sortDirection : SortDirection) (aValue bValue : cell) : R :=
  match aValue, bValue with
  | Null, Null => 0
  | Null, _ => match sortDirection with asc => 1 | desc => -1 end
  | _, Null => match sortDirection with asc => -1 | desc => 1 end
  | _, _ =>
      let comparison :=
        match aValue, bValue with
        | Num x, Num y => x - y
        | Str s, Str t => localeCompare s t
        | _, _ => 0
        end in
      match sortDirection with asc => comparison | desc => - comparison end
  end.

End TableControls.

(** ** The compare route: from the query string to the chart data *)

Module CompareRoute.

(** The separator [','] (code 44). *)
Definition comma : Ascii.ascii := Ascii.ascii_of_nat 44.

(** [String.prototype.split] with a one-character separator. *)
Fixpoint split (sep : Ascii.ascii) (s : string) : list string :=
  match s with
  | EmptyString => [""]
  | String c rest =>
      if Ascii.eqb c sep then "" :: split sep rest
      else
        match split sep rest with
        | piece :: pieces => String c piece :: pieces
        | [] => [String c ""]
        end
  end.

(** A search parameter: absent, given once, or given several times. *)
Inductive searchParam : Type :=
  | Absent
  | Single (s : string)
  | Multiple (l : list string).

(** The [ids] of [MaterialComparePageWrapper]: [filter(Boolean)] drops the
    empty pieces. *)
Definition ids (idsParam : searchParam) : list string :=
  match idsParam with
  | Single s =>
      List.filter (fun piece => negb (String.eqb piece "")) (split comma s)
  | _ => []
  end.

Record InferredMaterialData : Type := {
  id : string;
  name : string;
  density : option R;
  youngsModulus : option R;
  yieldStrength : option R;
  ultimateTensileStrength : option R;
  poissonsRatio : option R;
  shearModulus : option R;
  thermalExpansionCoefficient : option R;
  category : option string
}.

(** The materials in the order of the requested ids; ids without a
    material are dropped. *)
Definition orderedMaterials (materials : list InferredMaterialData)
    (orderedIds : list string) : list InferredMaterialData :=
  omap (fun i => find (fun m => String.eqb (id m) i) materials) orderedIds.

(** One object of [chartData].  The chart components read it through the
    chart material type; its [category] is not a number and is left
    out. *)
Definition chartEntry (selectedUnits : SelectedUnits)
    (material : InferredMaterialData) : outcome Radar.Material :=
  d ← ComparePage.calculateConvertedValue selectedUnits (density material) Density;
  e ← ComparePage.calculateConvertedValue selectedUnits (youngsModulus material) Modulus;
  ys ← ComparePage.calculateConvertedValue selectedUnits (yieldStrength material) Strength;
  uts ← ComparePage.calculateConvertedValue selectedUnits
          (ultimateTensileStrength material) Strength;
  g ← ComparePage.calculateConvertedValue selectedUnits (shearModulus material) Modulus;
  mret {| Radar.id := id material;
          Radar.name := name material;
          Radar.density := d;
          Radar.youngsModulus := e;
          Radar.yieldStrength := ys;
          Radar.ultimateTensileStrength := uts;
          Radar.poissonsRatio := None;
          Radar.shearModulus := g;
          Radar.thermalExpansionCoefficient :=
            match thermalExpansionCoefficient material with
            | Some tec => if tec !== 0 then Some (tec * 1e6) else None
            | None => None
            end;
          Radar.relativeCost := None;
          Radar.specificStrength := None;
          Radar.specificModulus := None |}.

(** [Array.prototype.map] with a callback that may throw. *)
Fixpoint mapM {A B : Type} (f : A -> outcome B) (l : list A)
    : outcome (list B) :=
  match l with
  | [] => mret []
  | x :: rest => y ← f x; ys ← mapM f rest; mret (y :: ys)
  end.

Definition chartData (selectedUnits : SelectedUnits)
    (orderedMaterials : list InferredMaterialData)
    : outcome (list Radar.Material) :=
  mapM (chartEntry selectedUnits) orderedMaterials.

(** The chart object of a material when the selected density, modulus
    and strength units have the factors [fd], [fm] and [fs]. *)
Definition converted_entry (fd fm fs : R) (material : InferredMaterialData)
    : Radar.Material :=
  {| Radar.id := id material;
     Radar.name := name material;
     Radar.density := (fun v => v / fd) <$> density material;
     Radar.youngsModulus := (fun v => v / fm) <$> youngsModulus material;
     Radar.yieldStrength := (fun v => v / fs) <$> yieldStrength material;
     Radar.ultimateTensileStrength :=
       (fun v => v / fs) <$> ultimateTensileStrength material;
     Radar.poissonsRatio := None;
     Radar.shearModulus := (fun v => v / fm) <$> shearModulus material;
     Radar.thermalExpansionCoefficient :=
       match thermalExpansionCoefficient material with
       | Some tec => if tec !== 0 then Some (tec * 1e6) else None
       | None => None
       end;
     Radar.relativeCost := None;
     Radar.specificStrength := None;
     Radar.specificModulus := None |}.

(** The factor by which the chart values of a radar axis change when the
    selection changes from units with factors [fd], [fm], [fs] to units
    with factors [fd'], [fm'], [fs']. *)
Definition axis_ratio (fd fm fs fd' fm' fs' : R) (key : string) : R :=
  if String.eqb key "youngsModulus" then fm / fm'
  else if String.eqb key "ultimateTensileStrength" then fs / fs'
  else if String.eqb key "yieldStrength" then fs / fs'
  else if String.eqb key "density" then fd / fd'
  else if String.eqb key "specificModulus" then (fm / fm') * (fd' / fd)
  else if String.eqb key "specificStrength" then (fs / fs') * (fd' / fd)
  else 1.

(** A selection is registered when each of its three units is a key of
    the compare page's table for its class. *)
Definition registered (selectedUnits : SelectedUnits) (fd fm fs : R) : Prop :=
  (exists info, lookup_unit ComparePage.densityUnits (sel_density selectedUnits)
                  = Some info /\ factor info = fd)
  /\ (exists info, lookup_unit ComparePage.modulusUnits (sel_modulus selectedUnits)
                     = Some info /\ factor info = fm)
  /\ (exists info, lookup_unit ComparePage.strengthUnits (sel_strength selectedUnits)
                     = Some info /\ factor info = fs).

(** *** Sample data: two rows as fetched for the compare page. *)
Definition steel_row : InferredMaterialData :=
  {| id := "clx1"; name := "AISI 1020 Steel, Hot Rolled";
     density := Some 7830; youngsModulus := Some 200e9;
     yieldStrength := Some 221e6; ultimateTensileStrength := Some 345e6;
     poissonsRatio := Some 0.32; shearModulus := None;
     thermalExpansionCoefficient := Some 12.0e-6; category := Some "Steel" |}.

Definition glass_row : InferredMaterialData :=
  {| id := "clx2"; name := "Soda–Lime Glass (Annealed)";
     density := Some 2400; youngsModulus := Some 7.1e10;
     yieldStrength := None; ultimateTensileStrength := Some 4.1e7;
     poissonsRatio := Some 0.23; shearModulus := Some 2.9e10;
     thermalExpansionCoefficient := Some 8.8e-6; category := Some "Ceramic" |}.

Definition initial_units : SelectedUnits :=
  {| sel_density := "kg/m³"; sel_modulus := "GPa"; sel_strength := "MPa" |}.

Definition imperial_units : SelectedUnits :=
  {| sel_density := "lb/ft³"; sel_modulus := "ksi"; sel_strength := "psi" |}.

End CompareRoute.

(** ** The tooltip of the radar chart ([CustomTooltip]) *)

Module RadarTooltip.

(** The axis property the tooltip works with: it reads the [subject] of
    the hovered axis point and searches [radarProperties] by label.  A
    [subject] that is not a string equals no label. *)
Definition radarProp (axisPoint : gmap string Radar.cell)
    : option Radar.RadarProperty :=
  match axisPoint !! "subject" with
  | Some (Radar.CStr subjectLabel) =>
      find (fun p => String.eqb (Radar.label p) subjectLabel)
        Radar.radarProperties
  | _ => None
  end.

(** The material whose original value the tooltip shows for a series. *)
Definition originalMaterial (processedMaterials : list Radar.Material)
    (materialName : string) : option Radar.Material :=
  find (fun m => String.eqb (Radar.name m) materialName) processedMaterials.

End RadarTooltip.

(** ** The bar chart ([ComparisonBarChart]) *)

Module BarChart.

Definition getValue (propertyKey : string) (material : Radar.Material)
    : option R :=
  Radar.prop material propertyKey.

Definition maxValue (materials : list Radar.Material) (propertyKey : string)
    : R :=
  let max :=
    fold_left
      (fun max material =>
         match getValue propertyKey material with
         | Some displayVal => if displayVal >? max then displayVal else max
         | None => max
         end)
      materials 0 in
  if max >? 0 then max * 1.1 else 1.

Definition numTicks : nat := 5.

Definition ticks (maxValue : R) : list R :=
  map (fun i => (maxValue / INR numTicks) * INR i) (seq 0 (S numTicks)).

Definition hasValidData (materials : list Radar.Material)
    (propertyKey : string) : bool :=
  existsb
    (fun m =>
       match getValue propertyKey m with
       | Some val => val >? 0
       | None => false
       end)
    materials.

Definition percentage (maxValue : R) (displayValueNum : option R) : R :=
  match displayValueNum with
  | Some v => if maxValue >? 0 then (v / maxValue) * 100 else 0
  | None => 0
  end.

(** The number in the bar's [width] style. *)
Definition barWidth (percentage : R) : R := Rmax 0 (Rmin 100 percentage).

Definition tickPercentage (maxValue tick : R) : R :=
  if maxValue >? 0 then (tick / maxValue) * 100 else 0.

(** What the component draws: the widths of the bars, in the order of the
    materials, and the positions of the axis ticks, both in percent. *)
Record Chart : Type := {
  bars : list R;
  axis : list R
}.

(** [None] is the early return with the text "No comparable data
    available for this property." *)
Definition ComparisonBarChart (materials : list Radar.Material)
    (propertyKey : string) : option Chart :=
  let maxValue := maxValue materials propertyKey in
  let ticks := ticks maxValue in
  if negb (hasValidData materials propertyKey) then None
  else
    Some {| bars :=
              map (fun material =>
                     barWidth (percentage maxValue
                                 (getValue propertyKey material)))
                materials;
            axis := map (tickPercentage maxValue) ticks |}.

End BarChart.

(** ** The beam drawing ([BeamVisualization.tsx]) *)

Module BeamVisualization.

Inductive BeamShape : Set := rectangle | circle | direct.

Record Props : Type := {
  length : R;
  deflection : option R;
  shape : BeamShape;
  base : option R;
  height : option R;
  diameter : option R;
  svgWidth : option R;
  svgHeight : option R
}.

(** The cross-section element, with the scale of its transform. *)
Inductive SectionElement : Type :=
  | Rect (scale x y width height strokeWidth : R)
  | Circle (scale cx cy r strokeWidth : R).

Record Drawing : Type := {
  beamY : R;
  visualDeflection : R;
  control : R * R;
  showCurve : bool;
  showArrow : bool;
  sectionElement : option SectionElement
}.

(** A number that is present and not zero. *)
Definition truthy (v : option R) : bool :=
  match v with
  | Some x => x !== 0
  | None => false
  end.

Definition padding : R := 20.
Definition sectionSvgSize : R := 50.
Definition sectionPadding : R := 5.

Definition is_rectangle (s : BeamShape) : bool :=
  match s with rectangle => true | _ => false end.

Definition is_circle (s : BeamShape) : bool :=
  match s with circle => true | _ => false end.

Definition maxDim (props : Props) : R :=
  if is_rectangle (shape props) && truthy (base props) && truthy (height props)
  then Rmax (default 0 (base props)) (default 0 (height props))
  else if is_circle (shape props) && truthy (diameter props)
  then default 0 (diameter props)
  else 0.

Definition section (props : Props) : option SectionElement :=
  let maxDim := maxDim props in
  if maxDim >? 0 then
    let scale := (sectionSvgSize - 2 * sectionPadding) / maxDim in
    if is_rectangle (shape props) && truthy (base props)
       && truthy (height props)
    then
      let rectWidth := default 0 (base props) in
      let rectHeight := default 0 (height props) in
      Some (Rect scale ((sectionSvgSize - rectWidth) / 2)
              ((sectionSvgSize - rectHeight) / 2) rectWidth rectHeight
              (1 / scale))
    else if is_circle (shape props) && truthy (diameter props) then
      let radius := default 0 (diameter props) / 2 in
      Some (Circle scale (sectionSvgSize / 2) (sectionSvgSize / 2) radius
              (1 / scale))
    else None
  else None.

(** [None] is the component rendering nothing. *)
Definition BeamVisualization (props : Props) : option Drawing :=
  let svgWidth := default 400 (svgWidth props) in
  let svgHeight := default 100 (svgHeight props) in
  match deflection props with
  | None => None
  | Some deflection =>
      if length props <=? 0 then None
      else
        let beamVisualLength := svgWidth - 2 * padding in
        let beamY := svgHeight / 2 in
        let maxVisualDeflection := (svgHeight / 2 - padding) * 0.8 in
        let scaleFactor :=
          if length props >? 0 then beamVisualLength / length props else 1 in
        let visualDeflection := Rabs deflection * scaleFactor in
        let visualDeflection := Rmin visualDeflection maxVisualDeflection in
        Some {| beamY := beamY;
                visualDeflection := visualDeflection;
                control := (svgWidth / 2, beamY + visualDeflection);
                showCurve := visualDeflection >? 0;
                showArrow := visualDeflection >? 5;
                sectionElement := section props |}
  end.

End BeamVisualization.

(** ** The home page ([app/page.tsx]) *)

Module Home.

(** [ToInt32]. *)
Definition to_int32 (z : Z) : Z := ((z + 2 ^ 31) mod 2 ^ 32 - 2 ^ 31)%Z.

Definition colors : list string :=
  [ "bg-blue-100 hover:bg-blue-200 text-blue-800 group-hover:text-blue-900";
    "bg-green-100 hover:bg-green-200 text-green-800 group-hover:text-green-900";
    "bg-yellow-100 hover:bg-yellow-200 text-yellow-800 group-hover:text-yellow-900";
    "bg-red-100 hover:bg-red-200 text-red-800 group-hover:text-red-900";
    "bg-purple-100 hover:bg-purple-200 text-purple-800 group-hover:text-purple-900";
    "bg-pink-100 hover:bg-pink-200 text-pink-800 group-hover:text-pink-900";
    "bg-indigo-100 hover:bg-indigo-200 text-indigo-800 group-hover:text-indigo-900";
    "bg-cyan-100 hover:bg-cyan-200 text-cyan-800 group-hover:text-cyan-900";
    "bg-teal-100 hover:bg-teal-200 text-teal-800 group-hover:text-teal-900";
    "bg-orange-100 hover:bg-orange-200 text-orange-800 group-hover:text-orange-900";
    "bg-gray-100 hover:bg-gray-200 text-gray-800 group-hover:text-gray-900";
    "bg-sky-100 hover:bg-sky-200 text-sky-800 group-hover:text-sky-900";
    "bg-amber-100 hover:bg-amber-200 text-amber-800 group-hover:text-amber-900";
    "bg-lime-100 hover:bg-lime-200 text-lime-800 group-hover:text-lime-900";
    "bg-emerald-100 hover:bg-emerald-200 text-emerald-800 group-hover:text-emerald-900";
    "bg-rose-100 hover:bg-rose-200 text-rose-800 group-hover:text-rose-900" ].

(** The hash loop over the UTF-16 code units of the category name:
    [hash << 5] and [hash & hash] are 32-bit operations, the additions
    between them are exact. *)
Definition hash_step (hash charCode : Z) : Z :=
  let hash := (charCode + (to_int32 (to_int32 hash * 2 ^ 5) - hash))%Z in
  to_int32 hash.

Definition category_hash (codeUnits : list Z) : Z :=
  fold_left hash_step codeUnits 0%Z.

Definition color_index (codeUnits : list Z) : Z :=
  (Z.abs (category_hash codeUnits) mod Z.of_nat (List.length colors))%Z.

(** [colors[index]]; [None] would be [undefined]. *)
Definition getCategoryColor (codeUnits : list Z) : option string :=
  nth_error colors (Z.to_nat (color_index codeUnits)).

(** [String.prototype.includes]. *)
Fixpoint includes (s sub : string) : bool :=
  String.prefix sub s
  || match s with
     | EmptyString => false
     | String _ rest => includes rest sub
     end.

(** [toLowerCase] is the built-in case mapping. *)
Definition getSuperCategory (toLowerCase : string -> string)
    (categoryName : string) : string :=
  let lowerCaseCategory := toLowerCase categoryName in
  if includes lowerCaseCategory "steel" || includes lowerCaseCategory "iron"
     || includes lowerCaseCategory "aluminum"
     || includes lowerCaseCategory "copper"
     || includes lowerCaseCategory "titanium"
     || includes lowerCaseCategory "magnesium"
     || includes lowerCaseCategory "nickel"
     || includes lowerCaseCategory "alloy"
     || includes lowerCaseCategory "metal"
  then "Metals"
  else if includes lowerCaseCategory "polymer"
     || includes lowerCaseCategory "plastic"
     || includes lowerCaseCategory "epoxy"
     || includes lowerCaseCategory "resin"
     || includes lowerCaseCategory "nylon"
     || includes lowerCaseCategory "poly"
  then "Polymers"
  else if includes lowerCaseCategory "ceramic"
     || includes lowerCaseCategory "glass"
     || includes lowerCaseCategory "oxide"
     || includes lowerCaseCategory "nitride"
     || includes lowerCaseCategory "carbide"
  then "Ceramics"
  else if includes lowerCaseCategory "composite"
     || includes lowerCaseCategory "carbon fiber"
     || includes lowerCaseCategory "fiberglass"
  then "Composites"
  else if includes lowerCaseCategory "wood" then "Woods"
  else "Other".

Definition superCategoryOrder : list string :=
  ["Metals"; "Polymers"; "Ceramics"; "Composites"; "Woods"; "Other"].

(** The [reduce] that groups the categories by super-category. *)
Definition groupedCategories (toLowerCase : string -> string)
    (categories : list string) : gmap string (list string) :=
  fold_left
    (fun (acc : gmap string (list string)) category =>
       let superCategory := getSuperCategory toLowerCase category in
       let acc : gmap string (list string) :=
         match acc !! superCategory with
         | None => <[superCategory := []]> acc
         | Some _ => acc
         end in
       <[superCategory :=
           (default [] (acc !! superCategory) ++ [category])%list]> acc)
    categories ∅.

End Home.

(** ** The material picker ([components/MaterialSelect]) *)

Module MaterialSelect.

Definition convertToGPa (pascals : option R) : R :=
  match pascals with
  | Some p => if p !== 0 then p / 1e9 else 0
  | None => 0
  end.

Definition convertToMPa (pascals : option R) : R :=
  match pascals with
  | Some p => if p !== 0 then p / 1e6 else 0
  | None => 0
  end.

End MaterialSelect.

(** * Properties *)

(** ** Comparison operators *)

Lemma num_eq_true (x y : R) : (x === y) = true <-> x = y.
Proof. unfold num_eq. destruct (Req_EM_T x y); split; congruence. Qed.

Lemma num_eq_false (x y : R) : (x === y) = false <-> x <> y.
Proof. unfold num_eq. destruct (Req_EM_T x y); split; congruence. Qed.

Lemma num_lt_true (x y : R) : (x <? y) = true <-> x < y.
Proof. unfold num_lt. destruct (Rlt_dec x y); split; congruence. Qed.

Lemma num_lt_false (x y : R) : (x <? y) = false <-> y <= x.
Proof.
  unfold num_lt. destruct (Rlt_dec x y); split; try congruence; lra.
Qed.

Lemma num_le_true (x y : R) : (x <=? y) = true <-> x <= y.
Proof. unfold num_le. destruct (Rle_dec x y); split; congruence. Qed.

Lemma num_le_false (x y : R) : (x <=? y) = false <-> y < x.
Proof.
  unfold num_le. destruct (Rle_dec x y); split; try congruence; lra.
Qed.

(** Decide every comparison of the goal, then close the impossible cases
    by linear arithmetic. *)
Ltac num_cases :=
  unfold num_gt, num_ge, num_eq, num_lt, num_le in *;
  repeat match goal with
  | |- context [Req_EM_T ?x ?y] => destruct (Req_EM_T x y)
  | |- context [Rlt_dec ?x ?y] => destruct (Rlt_dec x y)
  | |- context [Rle_dec ?x ?y] => destruct (Rle_dec x y)
  end;
  cbn [orb andb negb]; try lra.

(** ** The beam solver *)

Section BeamFacts.

Import Beam.

Variables L P E I : R.

(** On a beam that is not degenerate and for positions within the span the
    solver evaluates one of the two branch formulas and logs nothing. *)
Lemma deflection_in_span (a x : R) :
  E <> 0 -> I <> 0 -> L <> 0 ->
  0 <= a <= L -> 0 <= x <= L ->
  calculateSimpleBeamPointLoadDeflection L P E I a x =
    mret (if Rle_dec x a then deflection_left L P E I a x
          else deflection_right L P E I a x).
Proof.
  intros HE HI HL Ha Hx. unfold calculateSimpleBeamPointLoadDeflection.
  num_cases; reflexivity.
Qed.

Lemma x_max_left_arg (a : R) :
  0 < a < L -> 0 < (L*L - (L - a)*(L - a)) / 3 < L * L.
Proof. intros Ha. split; nra. Qed.

Lemma x_max_right_arg (a : R) :
  0 < a < L -> 0 < (L*L - a*a) / 3 < L * L.
Proof. intros Ha. split; nra. Qed.

Lemma sqrt_inside (t : R) : 0 < L -> 0 < t < L * L -> 0 < sqrt t < L.
Proof.
  intros HL [Ht0 Ht1]. split.
  - now apply sqrt_lt_R0.
  - rewrite <- (sqrt_square L) by lra.
    apply sqrt_lt_1_alt. lra.
Qed.


End BeamFacts.

(** C8. Degenerate-beam policy: with [E = 0], [I = 0] or [L = 0] the
    deflection is exactly [0], returned normally and without a console
    line, whatever [a] and [x] are; with [P = 0], [E = 0], [I = 0] or
    [L = 0] the maximum is exactly [{ maxDeflection: 0, location: L/2 }],
    returned normally and without a console line. *)
Theorem degenerate_beam_zero (L P E I a x : R) :
  (E = 0 \/ I = 0 \/ L = 0 ->
     Beam.calculateSimpleBeamPointLoadDeflection L P E I a x
       = Outcome [] (Normal 0))
  /\ (P = 0 \/ E = 0 \/ I = 0 \/ L = 0 ->
     Beam.calculateSimpleBeamMaxDeflection L P E I a
       = Outcome [] (Normal (Some {| Beam.maxDeflection := 0;
                                     Beam.location := L / 2 |}))).
Proof.
  split; intros H.
  - unfold Beam.calculateSimpleBeamPointLoadDeflection.
    destruct H as [-> | [-> | ->]]; num_cases; reflexivity.
  - unfold Beam.calculateSimpleBeamMaxDeflection.
    destruct H as [-> | [-> | [-> | ->]]]; num_cases; reflexivity.
Qed.

Lemma degenerate_beam_zero_witness :
  Beam.calculateSimpleBeamPointLoadDeflection 2 1000 0 8.33e-6 1 1
    = Outcome [] (Normal 0)
  /\ Beam.calculateSimpleBeamMaxDeflection 2 0 200e9 8.33e-6 1
    = Outcome [] (Normal (Some {| Beam.maxDeflection := 0;
                                  Beam.location := 2 / 2 |})).
Proof.
  split.
  - apply (degenerate_beam_zero 2 1000 0 8.33e-6 1 1). left. reflexivity.
  - apply (degenerate_beam_zero 2 0 200e9 8.33e-6 1 1). left. reflexivity.
Defined.

(** C2, as stated, fails: evaluating the deflection just beyond the right
    support, and asking for the maximum with the load on the left support,
    both complete normally (with [0] and with [null]) after a console
    line; neither fails with [InvalidInputError]. *)
Lemma out_of_range_not_rejected :
  Beam.calculateSimpleBeamPointLoadDeflection 2 1000 200e9 8.33e-6 1 (2 + 0.001)
    = Outcome ["Calculation point 'x' must be between 0 and L."] (Normal 0)
  /\ ~ fails_with InvalidInputError
       (Beam.calculateSimpleBeamPointLoadDeflection
          2 1000 200e9 8.33e-6 1 (2 + 0.001))
  /\ Beam.calculateSimpleBeamMaxDeflection 2 1000 200e9 8.33e-6 0
    = Outcome ["Load position 'a' must be between 0 and L (exclusive)."]
        (Normal None)
  /\ ~ fails_with InvalidInputError
       (Beam.calculateSimpleBeamMaxDeflection 2 1000 200e9 8.33e-6 0).
Proof.
  assert (H1 : Beam.calculateSimpleBeamPointLoadDeflection
                 2 1000 200e9 8.33e-6 1 (2 + 0.001)
               = Outcome ["Calculation point 'x' must be between 0 and L."]
                   (Normal 0)).
  { unfold Beam.calculateSimpleBeamPointLoadDeflection.
    num_cases; reflexivity. }
  assert (H2 : Beam.calculateSimpleBeamMaxDeflection 2 1000 200e9 8.33e-6 0
               = Outcome
                   ["Load position 'a' must be between 0 and L (exclusive)."]
                   (Normal None)).
  { unfold Beam.calculateSimpleBeamMaxDeflection. num_cases; reflexivity. }
  unfold fails_with. rewrite H1, H2. cbn [result].
  repeat split; congruence.
Qed.

(** C2, amended: on a beam that is not degenerate, an out-of-range
    position is reported on the console and answered with a default value,
    never with an exception.  The deflection is [0] after the load-position
    message when [a] is outside [[0, L]], and [0] after the
    calculation-point message when [a] is inside and [x] is outside
    [[0, L]]; the maximum is [null] after its message when [a <= 0] or
    [a >= L]. *)
Theorem out_of_range_logged_and_defaulted (L P E I a x : R) :
  E <> 0 -> I <> 0 -> L <> 0 ->
  (a < 0 \/ a > L ->
     Beam.calculateSimpleBeamPointLoadDeflection L P E I a x
       = Outcome ["Load position 'a' must be between 0 and L."] (Normal 0))
  /\ (0 <= a <= L -> x < 0 \/ x > L ->
     Beam.calculateSimpleBeamPointLoadDeflection L P E I a x
       = Outcome ["Calculation point 'x' must be between 0 and L."] (Normal 0))
  /\ (P <> 0 -> a <= 0 \/ a >= L ->
     Beam.calculateSimpleBeamMaxDeflection L P E I a
       = Outcome ["Load position 'a' must be between 0 and L (exclusive)."]
           (Normal None)).
Proof.
  intros HE HI HL. repeat split.
  - intros Ha. unfold Beam.calculateSimpleBeamPointLoadDeflection.
    num_cases; reflexivity.
  - intros Ha Hx. unfold Beam.calculateSimpleBeamPointLoadDeflection.
    num_cases; reflexivity.
  - intros HP Ha. unfold Beam.calculateSimpleBeamMaxDeflection.
    num_cases; reflexivity.
Qed.

Lemma out_of_range_logged_and_defaulted_witness :
  Beam.calculateSimpleBeamPointLoadDeflection 2 1000 200e9 8.33e-6 3 1
    = Outcome ["Load position 'a' must be between 0 and L."] (Normal 0)
  /\ Beam.calculateSimpleBeamPointLoadDeflection 2 1000 200e9 8.33e-6 1 3
    = Outcome ["Calculation point 'x' must be between 0 and L."] (Normal 0)
  /\ Beam.calculateSimpleBeamMaxDeflection 2 1000 200e9 8.33e-6 2
    = Outcome ["Load position 'a' must be between 0 and L (exclusive)."]
        (Normal None).
Proof.
  split; [| split].
  - apply (out_of_range_logged_and_defaulted 2 1000 200e9 8.33e-6 3 1); lra.
  - apply (out_of_range_logged_and_defaulted 2 1000 200e9 8.33e-6 1 3); lra.
  - apply (out_of_range_logged_and_defaulted 2 1000 200e9 8.33e-6 2 0); lra.
Defined.







(** For a load in the left half the location computed by the first
    formula is not left of the load: the stationary point of the left
    branch falls at or beyond [a]. *)
Lemma x_max_not_left_of_load (L a : R) :
  0 < a < L -> a <= L - a -> a <= Beam.x_max L a.
Proof.
  intros Ha Hab. unfold Beam.x_max. cbv zeta.
  destruct (num_le_true a (L - a)) as [_ ->]; [| exact Hab].
  rewrite <- (sqrt_square a) at 1 by lra.
  apply sqrt_le_1_alt. nra.
Qed.

(** C6. Continuity at the load point: for [0 <= a <= L] and
    [E * I * L <> 0] the two branch formulas agree at [x = a], that is
    [(P b a) / (6 E I L) (L² - b² - a²)] equals
    [(P a (L - a)) / (6 E I L) (L² - a² - (L - a)²)] with [b = L - a];
    this common value is what the solver returns at [x = a]. *)
Theorem deflection_continuous_at_load (L P E I a : R) :
  0 <= a <= L -> E * I * L <> 0 ->
  let b := L - a in
  Beam.deflection_left L P E I a a = Beam.deflection_right L P E I a a
  /\ Beam.deflection_left L P E I a a
     = (P * b * a) / (6 * E * I * L) * (L^2 - b^2 - a^2)
  /\ Beam.deflection_right L P E I a a
     = (P * a * (L - a)) / (6 * E * I * L) * (L^2 - a^2 - (L - a)^2)
  /\ Beam.calculateSimpleBeamPointLoadDeflection L P E I a a
     = Outcome [] (Normal (Beam.deflection_left L P E I a a)).
Proof.
  intros Ha HEIL b.
  assert (HE : E <> 0) by (intros ->; apply HEIL; ring).
  assert (HI : I <> 0) by (intros ->; apply HEIL; ring).
  assert (HL : L <> 0) by (intros ->; apply HEIL; ring).
  unfold Beam.deflection_left, Beam.deflection_right, b. cbv zeta.
  repeat split; try (field; auto).
  rewrite deflection_in_span by (auto; lra).
  destruct (Rle_dec a a); [reflexivity | lra].
Qed.

Lemma deflection_continuous_at_load_witness :
  let b := 2 - 0.5 in
  Beam.deflection_left 2 1000 200e9 8.33e-6 0.5 0.5
    = Beam.deflection_right 2 1000 200e9 8.33e-6 0.5 0.5
  /\ Beam.deflection_left 2 1000 200e9 8.33e-6 0.5 0.5
     = (1000 * b * 0.5) / (6 * 200e9 * 8.33e-6 * 2) * (2^2 - b^2 - 0.5^2)
  /\ Beam.deflection_right 2 1000 200e9 8.33e-6 0.5 0.5
     = (1000 * 0.5 * (2 - 0.5)) / (6 * 200e9 * 8.33e-6 * 2)
       * (2^2 - 0.5^2 - (2 - 0.5)^2)
  /\ Beam.calculateSimpleBeamPointLoadDeflection 2 1000 200e9 8.33e-6 0.5 0.5
     = Outcome [] (Normal (Beam.deflection_left 2 1000 200e9 8.33e-6 0.5 0.5)).
Proof.
  apply (deflection_continuous_at_load 2 1000 200e9 8.33e-6 0.5); lra.
Defined.

(** C7, as stated, fails for a negative length: with [L = -2] the load
    position [L/2 = -1] is below [0], so the solver logs the load-position
    message and returns [0], while [P L³ / (48 E I)] is [-8/48]. *)
Lemma center_load_negative_length :
  Beam.calculateSimpleBeamPointLoadDeflection (-2) 1 1 1 (-2 / 2) (-2 / 2)
    = Outcome ["Load position 'a' must be between 0 and L."] (Normal 0)
  /\ (-2) * 1 * 1 <> 0
  /\ result (Beam.calculateSimpleBeamPointLoadDeflection
               (-2) 1 1 1 (-2 / 2) (-2 / 2))
     <> Normal (1 * (-2)^3 / (48 * 1 * 1)).
Proof.
  assert (H : Beam.calculateSimpleBeamPointLoadDeflection
                (-2) 1 1 1 (-2 / 2) (-2 / 2)
              = Outcome ["Load position 'a' must be between 0 and L."]
                  (Normal 0)).
  { unfold Beam.calculateSimpleBeamPointLoadDeflection.
    num_cases; reflexivity. }
  rewrite H. cbn [result]. split; [reflexivity |]. split; [lra |].
  intros Heq. injection Heq as Heq. lra.
Qed.

(** C7, amended: for every [L > 0] and [E * I <> 0] the deflection for a
    centred load, evaluated at the centre, is [P L³ / (48 E I)], and the
    deprecated [calculateBeamDeflection] returns the same value by
    delegating to that case. *)
Theorem center_load_closed_form (L P E I : R) :
  0 < L -> E * I <> 0 ->
  Beam.calculateSimpleBeamPointLoadDeflection L P E I (L / 2) (L / 2)
    = Outcome [] (Normal (P * L^3 / (48 * E * I)))
  /\ Beam.calculateBeamDeflection L P E I
    = Beam.calculateSimpleBeamPointLoadDeflection L P E I (L / 2) (L / 2).
Proof.
  intros HL HEI.
  assert (HE : E <> 0) by (intros ->; apply HEI; ring).
  assert (HI : I <> 0) by (intros ->; apply HEI; ring).
  split; [| reflexivity].
  rewrite deflection_in_span by (auto; lra).
  destruct (Rle_dec (L / 2) (L / 2)); [| lra].
  unfold mret, outcome_ret. do 2 f_equal.
  unfold Beam.deflection_left. cbv zeta. field. repeat split; auto; lra.
Qed.

Lemma center_load_closed_form_witness :
  Beam.calculateSimpleBeamPointLoadDeflection 2 1000 200e9 8.33e-6 (2 / 2) (2 / 2)
    = Outcome [] (Normal (1000 * 2^3 / (48 * 200e9 * 8.33e-6)))
  /\ Beam.calculateBeamDeflection 2 1000 200e9 8.33e-6
    = Beam.calculateSimpleBeamPointLoadDeflection
        2 1000 200e9 8.33e-6 (2 / 2) (2 / 2).
Proof.
  apply (center_load_closed_form 2 1000 200e9 8.33e-6); lra.
Defined.

(** ** Unit conversion *)

(** The compare page divides by the canonical factor for every registered
    unit of every class, in both of its conversion functions. *)
Lemma compare_page_canonical (unitType : UnitType) (unitName : string) (si : R) :
  Canonical.registered unitType unitName ->
  exists info,
    lookup_unit (Canonical.table unitType) unitName = Some info
    /\ ComparePage.calculateConvertedValue
         (Canonical.selecting unitType unitName) (Some si) unitType
       = Outcome [] (Normal (Some (si / factor info)))
    /\ ComparePage.formatConvertedValueForDisplay
         (Canonical.selecting unitType unitName) (Some si) unitType
       = Outcome [] (Normal (LocaleString (si / factor info) 0 (precision info))).
Proof.
  unfold Canonical.registered.
  destruct unitType; cbn [Canonical.table map fst In]; intros H;
    repeat (destruct H as [<- | H]; [eexists; repeat split; reflexivity |]);
    destruct H.
Qed.

(** The materials table does so for the two stress classes, and for the
    SI density unit. *)
Lemma materials_table_canonical (unitType : UnitType) (unitName : string) (si : R) :
  Canonical.registered unitType unitName ->
  unitType <> Density \/ unitName = "kg/m³" ->
  exists info,
    lookup_unit (Canonical.table unitType) unitName = Some info
    /\ MaterialsTable.convertValue
         (Canonical.selecting unitType unitName) (Some si) unitType
       = Outcome [] (Normal (LocaleString (si / factor info) 0 (precision info))).
Proof.
  unfold Canonical.registered.
  destruct unitType; cbn [Canonical.table map fst In]; intros H Hc.
  - destruct Hc as [Hc | ->]; [congruence |].
    eexists; repeat split; reflexivity.
  - repeat (destruct H as [<- | H]; [eexists; repeat split; reflexivity |]).
    destruct H.
  - repeat (destruct H as [<- | H]; [eexists; repeat split; reflexivity |]).
    destruct H.
Qed.

(** C1 does not hold of the materials table: its density table stores the
    reciprocal factors ([0.001] and [0.0160185]) and still divides by
    them.  For steel, [7830 kg/m³] shown in [g/cm³], the materials table
    formats [7830 / 0.001 = 7830000] where the compare page and the
    canonical table give [7830 / 1000 = 7.83]. *)
Theorem materials_table_density_inverted :
  let sel := Canonical.selecting Density "g/cm³" in
  MaterialsTable.convertValue sel (Some 7830) Density
    = Outcome [] (Normal (LocaleString (7830 / 0.001) 0 3))
  /\ 7830 / 0.001 = 7830000
  /\ ComparePage.calculateConvertedValue sel (Some 7830) Density
    = Outcome [] (Normal (Some (7830 / 1000)))
  /\ Canonical.display Density "g/cm³" 7830 = Some (7830 / 1000)
  /\ 7830 / 1000 = 7.83
  /\ 7830 / 0.001 <> 7830 / 1000.
Proof.
  cbv zeta. repeat split; try reflexivity; lra.
Qed.

(** The same disagreement, for every non-zero density and both non-SI
    density units. *)
Lemma materials_table_density_disagrees (unitName : string) (si : R) :
  si <> 0 -> unitName = "g/cm³" \/ unitName = "lb/ft³" ->
  exists shown canonical,
    MaterialsTable.convertValue
      (Canonical.selecting Density unitName) (Some si) Density
      = Outcome [] (Normal (LocaleString shown 0 3))
    /\ ComparePage.calculateConvertedValue
         (Canonical.selecting Density unitName) (Some si) Density
       = Outcome [] (Normal (Some canonical))
    /\ shown <> canonical.
Proof.
  intros Hsi [-> | ->]; do 2 eexists; (split; [reflexivity |]);
    (split; [reflexivity |]); cbn [factor]; intros Heq; apply Hsi; lra.
Qed.

(** ** The seeding script *)

Section SeedFacts.

Import Seed.

Lemma payload_fields_other_key (mat : MaterialData) (keys : list string)
    (payload : gmap string value) (k : string) :
  ~ In k keys ->
  fold_left
    (fun payload key =>
       match field mat key with
       | Some v => <[key := v]> payload
       | None => payload
       end)
    keys payload !! k = payload !! k.
Proof.
  revert payload. induction keys as [| key keys IH]; intros payload Hk.
  - reflexivity.
  - cbn [fold_left]. rewrite IH by (intros Hin; apply Hk; now right).
    destruct (field mat key); [| reflexivity].
    apply lookup_insert_ne. intros ->. apply Hk. now left.
Qed.

Lemma payload_shearModulus (mat : MaterialData) (calculated : option R) :
  createMaterialPayload mat calculated !! "shearModulus"
  = VNum <$> (match shearModulus mat with
              | Some g => Some g
              | None => calculated
              end).
Proof.
  unfold createMaterialPayload. cbv zeta.
  destruct (match shearModulus mat with
            | Some g => Some g
            | None => calculated
            end) as [g |].
  - apply lookup_insert_eq.
  - rewrite payload_fields_other_key.
    + rewrite !lookup_insert_ne by discriminate. reflexivity.
    + unfold optionalFields. cbn [In]. intuition discriminate.
Qed.

End SeedFacts.

(** C9. The derived shear modulus is [E / (2 (1 + nu))] when both inputs
    are present and [nu > -1] (so the divisor is positive), and [null]
    when [nu <= -1] or when either input is missing; in the payload a
    shear modulus supplied with the material takes precedence over the
    computed one, which is used only when none is supplied. *)
Theorem shear_modulus_guarded :
  (forall E nu : R, -1 < nu ->
     Seed.calculateShearModulus (Some E) (Some nu) = Some (E / (2 * (1 + nu)))
     /\ 0 < 2 * (1 + nu))
  /\ (forall E nu : R, nu <= -1 ->
     Seed.calculateShearModulus (Some E) (Some nu) = None)
  /\ (forall nu : option R, Seed.calculateShearModulus None nu = None)
  /\ (forall E : option R, Seed.calculateShearModulus E None = None)
  /\ (forall (mat : Seed.MaterialData) (g : R) (calculated : option R),
     Seed.shearModulus mat = Some g ->
     Seed.createMaterialPayload mat calculated !! "shearModulus"
       = Some (Seed.VNum g))
  /\ (forall (mat : Seed.MaterialData) (g : R),
     Seed.shearModulus mat = Some g ->
     Seed.seed_payload mat !! "shearModulus" = Some (Seed.VNum g))
  /\ (forall mat : Seed.MaterialData,
     Seed.shearModulus mat = None ->
     Seed.seed_payload mat !! "shearModulus"
       = Seed.VNum <$> Seed.calculateShearModulus
                         (Seed.youngsModulus mat) (Seed.poissonsRatio mat)).
Proof.
  split; [| split; [| split; [| split; [| split; [| split]]]]].
  - intros E nu Hnu. split; [| lra].
    unfold Seed.calculateShearModulus. num_cases. reflexivity.
  - intros E nu Hnu. unfold Seed.calculateShearModulus. num_cases.
    reflexivity.
  - reflexivity.
  - intros [E |]; reflexivity.
  - intros mat g calculated H. rewrite payload_shearModulus, H. reflexivity.
  - intros mat g H. unfold Seed.seed_payload.
    rewrite payload_shearModulus, H. reflexivity.
  - intros mat H. unfold Seed.seed_payload.
    rewrite payload_shearModulus, H. reflexivity.
Qed.

Lemma shear_modulus_guarded_witness :
  Seed.calculateShearModulus (Some 200e9) (Some 0.32)
    = Some (200e9 / (2 * (1 + 0.32)))
  /\ Seed.calculateShearModulus (Some 200e9) (Some (-1)) = None
  /\ Seed.seed_payload Seed.soda_lime_glass !! "shearModulus"
    = Some (Seed.VNum 2.9e10).
Proof.
  split; [| split].
  - apply shear_modulus_guarded. lra.
  - apply shear_modulus_guarded. lra.
  - apply shear_modulus_guarded. reflexivity.
Defined.

(** ** The radar-chart normaliser *)

Section RadarFacts.

Import Radar.

(** *** Extrema of a non-empty list *)

Lemma Math_min_spec (rest : list R) (v : R) :
  is_min_of (v :: rest) (Math_min v rest).
Proof.
  unfold Math_min, is_min_of. revert v.
  induction rest as [| w rest IH]; intros v; cbn [fold_left].
  - split; [now left |]. intros x [<- | []]. lra.
  - destruct (IH (Rmin v w)) as [Hin Hle]. split.
    + destruct Hin as [Heq | Hin]; [| right; now right].
      rewrite <- Heq. apply Rmin_case; [now left | right; now left].
    + intros x Hx.
      assert (Hvw : fold_left Rmin rest (Rmin v w) <= Rmin v w)
        by (apply Hle; now left).
      destruct Hx as [<- | [<- | Hx]].
      * pose proof (Rmin_l v w). lra.
      * pose proof (Rmin_r v w). lra.
      * apply Hle. now right.
Qed.

Lemma Math_max_spec (rest : list R) (v : R) :
  is_max_of (v :: rest) (Math_max v rest).
Proof.
  unfold Math_max, is_max_of. revert v.
  induction rest as [| w rest IH]; intros v; cbn [fold_left].
  - split; [now left |]. intros x [<- | []]. lra.
  - destruct (IH (Rmax v w)) as [Hin Hle]. split.
    + destruct Hin as [Heq | Hin]; [| right; now right].
      rewrite <- Heq. apply Rmax_case; [now left | right; now left].
    + intros x Hx.
      assert (Hvw : Rmax v w <= fold_left Rmax rest (Rmax v w))
        by (apply Hle; now left).
      destruct Hx as [<- | [<- | Hx]].
      * pose proof (Rmax_l v w). lra.
      * pose proof (Rmax_r v w). lra.
      * apply Hle. now right.
Qed.

Lemma is_min_of_unique (vs : list R) (m m' : R) :
  is_min_of vs m -> is_min_of vs m' -> m = m'.
Proof.
  intros [Hin Hle] [Hin' Hle'].
  specialize (Hle _ Hin'). specialize (Hle' _ Hin). lra.
Qed.

Lemma is_max_of_unique (vs : list R) (m m' : R) :
  is_max_of vs m -> is_max_of vs m' -> m = m'.
Proof.
  intros [Hin Hle] [Hin' Hle'].
  specialize (Hle _ Hin'). specialize (Hle' _ Hin). lra.
Qed.

Lemma is_min_of_perm (vs vs' : list R) (m : R) :
  Permutation vs vs' -> is_min_of vs m -> is_min_of vs' m.
Proof.
  intros Hp [Hin Hle]. split.
  - now apply (Permutation_in _ Hp).
  - intros v Hv. apply Hle. now apply (Permutation_in _ (Permutation_sym Hp)).
Qed.

Lemma is_max_of_perm (vs vs' : list R) (m : R) :
  Permutation vs vs' -> is_max_of vs m -> is_max_of vs' m.
Proof.
  intros Hp [Hin Hle]. split.
  - now apply (Permutation_in _ Hp).
  - intros v Hv. apply Hle. now apply (Permutation_in _ (Permutation_sym Hp)).
Qed.

(** The stored pair is the pair of extrema as soon as a value exists. *)
Lemma min_max_spec (vs : list R) :
  vs <> [] -> is_min_of vs (fst (min_max vs)) /\ is_max_of vs (snd (min_max vs)).
Proof.
  destruct vs as [| v rest]; [congruence |]. intros _. cbn [min_max fst snd].
  split; [apply Math_min_spec | apply Math_max_spec].
Qed.

(** It does not depend on the order of the values. *)
Lemma min_max_perm (vs vs' : list R) :
  Permutation vs vs' -> min_max vs = min_max vs'.
Proof.
  intros Hp. destruct vs as [| v rest].
  - apply Permutation_nil in Hp. now subst.
  - destruct vs' as [| v' rest'].
    + apply Permutation_sym, Permutation_nil in Hp. discriminate.
    + cbn [min_max]. f_equal.
      * eapply is_min_of_unique; [| apply Math_min_spec].
        eapply is_min_of_perm; [apply Hp |].
        apply Math_min_spec.
      * eapply is_max_of_unique; [| apply Math_max_spec].
        eapply is_max_of_perm; [apply Hp |].
        apply Math_max_spec.
Qed.

(** *** Objects filled by a loop of keyed writes *)

Section KeyedWrites.

Context {A V : Type} (kf : A -> string) (vf : A -> V).

Local Abbreviation write :=
  (fun (m : gmap string V) (a : A) => <[kf a := vf a]> m).

Lemma fold_insert_other (l : list A) (init : gmap string V) (k : string) :
  ~ In k (map kf l) -> fold_left write l init !! k = init !! k.
Proof.
  revert init. induction l as [| a l IH]; intros init Hk; [reflexivity |].
  cbn [fold_left]. rewrite IH by (intros Hin; apply Hk; now right).
  apply lookup_insert_ne. intros Heq. apply Hk. now left.
Qed.

Lemma fold_insert_found (l : list A) (init : gmap string V) (a : A) :
  List.NoDup (map kf l) -> In a l ->
  fold_left write l init !! kf a = Some (vf a).
Proof.
  revert init. induction l as [| b l IH]; intros init Hnd Hin; [destruct Hin |].
  cbn [map] in Hnd. apply List.NoDup_cons_iff in Hnd as [Hb Hnd].
  cbn [fold_left]. destruct Hin as [-> | Hin].
  - rewrite fold_insert_other by exact Hb. apply lookup_insert_eq.
  - now apply IH.
Qed.

Lemma fold_insert_perm (l l' : list A) (init : gmap string V) :
  List.NoDup (map kf l) -> Permutation l l' ->
  fold_left write l init = fold_left write l' init.
Proof.
  intros Hnd Hp. apply map_eq. intros k.
  destruct (in_dec String.string_dec k (map kf l)) as [Hin | Hout].
  - apply in_map_iff in Hin as (a & <- & Hin).
    rewrite fold_insert_found by assumption.
    symmetry. apply fold_insert_found.
    + eapply Permutation_NoDup; [| exact Hnd]. now apply Permutation_map.
    + now apply (Permutation_in _ Hp).
  - rewrite !fold_insert_other; [reflexivity | | exact Hout].
    intros Hin. apply Hout.
    eapply Permutation_in; [| exact Hin].
    apply Permutation_sym. now apply Permutation_map.
Qed.


End KeyedWrites.

(** *** The first loop: what [mins] and [maxs] hold *)

Lemma radarProperties_keys_distinct : List.NoDup (map key radarProperties).
Proof.
  unfold radarProperties. cbn [map key].
  repeat (apply List.NoDup_cons; [cbn [In]; intuition discriminate |]).
  apply List.NoDup_nil.
Qed.

Lemma extrema_fold_fst (processed : list Material) (ps : list RadarProperty)
    (st : gmap string R * gmap string R) :
  fst (fold_left (extrema_step processed) ps st)
  = fold_left
      (fun m p => <[key p := fst (min_max (values processed (key p)))]> m)
      ps (fst st).
Proof.
  revert st. induction ps as [| p ps IH]; intros st; [reflexivity |].
  cbn [fold_left]. rewrite IH. reflexivity.
Qed.

Lemma extrema_fold_snd (processed : list Material) (ps : list RadarProperty)
    (st : gmap string R * gmap string R) :
  snd (fold_left (extrema_step processed) ps st)
  = fold_left
      (fun m p => <[key p := snd (min_max (values processed (key p)))]> m)
      ps (snd st).
Proof.
  revert st. induction ps as [| p ps IH]; intros st; [reflexivity |].
  cbn [fold_left]. rewrite IH. reflexivity.
Qed.

Lemma extrema_lookup (processed : list Material) (p : RadarProperty) :
  In p radarProperties ->
  fst (extrema processed) !! key p
    = Some (fst (min_max (values processed (key p))))
  /\ snd (extrema processed) !! key p
    = Some (snd (min_max (values processed (key p)))).
Proof.
  intros Hp. unfold extrema.
  rewrite extrema_fold_fst, extrema_fold_snd. split.
  - apply (fold_insert_found key
             (fun p => fst (min_max (values processed (key p)))));
      [apply radarProperties_keys_distinct | exact Hp].
  - apply (fold_insert_found key
             (fun p => snd (min_max (values processed (key p)))));
      [apply radarProperties_keys_distinct | exact Hp].
Qed.

Lemma values_perm (processed processed' : list Material) (k : string) :
  Permutation processed processed' ->
  Permutation (values processed k) (values processed' k).
Proof. intros Hp. unfold values. now apply omap_Permutation. Qed.

Lemma extrema_perm (processed processed' : list Material) :
  Permutation processed processed' -> extrema processed = extrema processed'.
Proof.
  intros Hp. unfold extrema. generalize (∅ : gmap string R, ∅ : gmap string R).
  induction radarProperties as [| p ps IH]; intros st; [reflexivity |].
  cbn [fold_left]. unfold extrema_step at 2 4.
  rewrite (min_max_perm _ _ (values_perm _ _ (key p) Hp)). apply IH.
Qed.

Lemma values_defined (processed : list Material) (k : string)
    (m : Material) (v : R) :
  In m processed -> prop m k = Some v -> In v (values processed k).
Proof.
  intros Hm Hv. unfold values. apply list_elem_of_In.
  apply list_elem_of_omap. exists m. split; [| exact Hv].
  now apply list_elem_of_In.
Qed.

Lemma values_source (processed : list Material) (k : string) (v : R) :
  In v (values processed k) ->
  exists m, In m processed /\ prop m k = Some v.
Proof.
  intros Hin. unfold values in Hin. apply list_elem_of_In in Hin.
  apply list_elem_of_omap in Hin as (m & Hm & Hv).
  exists m. split; [now apply list_elem_of_In | exact Hv].
Qed.

(** The two numbers stored for an axis, read off the materials: they
    bound every value found under the key, both are such values as soon
    as there is one, and they are [0] and [1] when there is none. *)
Lemma extrema_of_materials (processed : list Material) (p : RadarProperty) :
  In p radarProperties ->
  exists min max : R,
    fst (extrema processed) !! key p = Some min
    /\ snd (extrema processed) !! key p = Some max
    /\ (forall m v, In m processed -> prop m (key p) = Some v ->
          min <= v <= max)
    /\ ((exists m, In m processed /\ prop m (key p) <> None) ->
         (exists m, In m processed /\ prop m (key p) = Some min)
         /\ (exists m, In m processed /\ prop m (key p) = Some max))
    /\ ((forall m, In m processed -> prop m (key p) = None) ->
         min = 0 /\ max = 1).
Proof.
  intros Hp. destruct (extrema_lookup processed p Hp) as [Hmin Hmax].
  set (vs := values processed (key p)) in *.
  exists (fst (min_max vs)), (snd (min_max vs)).
  split; [exact Hmin |]. split; [exact Hmax |].
  assert (Hsome : forall v, In v vs ->
            is_min_of vs (fst (min_max vs)) /\ is_max_of vs (snd (min_max vs))).
  { intros v Hv. apply min_max_spec. intros Heq. rewrite Heq in Hv.
    destruct Hv. }
  split; [| split].
  - intros m v Hm Hv.
    pose proof (values_defined processed (key p) m v Hm Hv) as Hin.
    fold vs in Hin. destruct (Hsome v Hin) as [[_ Hlo] [_ Hhi]].
    split; [apply Hlo | apply Hhi]; exact Hin.
  - intros (m & Hm & Hv).
    destruct (prop m (key p)) as [v |] eqn:Hmv; [| congruence].
    pose proof (values_defined processed (key p) m v Hm Hmv) as Hin.
    fold vs in Hin. destruct (Hsome v Hin) as [[Hlo _] [Hhi _]].
    split; apply values_source; assumption.
  - intros Hnone. destruct vs as [| v rest] eqn:Hvs; [split; reflexivity |].
    assert (Hin : In v (values processed (key p)))
      by (fold vs; rewrite Hvs; now left).
    apply values_source in Hin as (m & Hm & Hv).
    rewrite (Hnone m Hm) in Hv. discriminate.
Qed.

(** *** The second loop: the score of one material on one axis *)



Lemma process_name (m : Material) : name (process m) = name m.
Proof.
  unfold process. cbv zeta.
  destruct (yieldStrength m), (youngsModulus m), (density m) as [d |];
    try reflexivity; destruct (d !== 0); reflexivity.
Qed.

Lemma processed_names (materials : list Material) :
  map name (processedMaterials materials) = map name materials.
Proof.
  unfold processedMaterials. rewrite map_map.
  apply map_ext. exact process_name.
Qed.

(** *** The inner loop: the entries written under the materials' names *)

Lemma assign_number_eq (obj : gmap string cell) (k : string) (v : R) :
  assign_number obj k v
  = if String.eqb k "__proto__" then obj else <[k := CNum v]> obj.
Proof. reflexivity. Qed.

(** The loop of writes is a loop of insertions over the stored
    materials. *)
Lemma fold_assign_stored (f : Material -> R) (l : list Material)
    (init : gmap string cell) :
  fold_left (fun ap mat => assign_number ap (name mat) (f mat)) l init
  = fold_left (fun ap mat => <[name mat := CNum (f mat)]> ap) (stored l) init.
Proof.
  revert init. induction l as [| m l IH]; intros init; [reflexivity |].
  cbn [fold_left stored List.filter]. rewrite assign_number_eq.
  destruct (String.eqb (name m) "__proto__"); cbn [negb fold_left];
    apply IH.
Qed.

Lemma axisPoint_stored (processed : list Material) (mins maxs : gmap string R)
    (p : RadarProperty) :
  axisPoint processed mins maxs p
  = fold_left
      (fun ap mat =>
         <[name mat :=
             CNum (normalizedValue mins maxs (key p) (higherIsBetter p) mat)]>
           ap)
      (stored processed)
      (<["fullMark" := CNum 100]> (<["subject" := CStr (label p)]> ∅)).
Proof. unfold axisPoint. apply fold_assign_stored. Qed.

Lemma stored_In (l : list Material) (m : Material) :
  In m (stored l) <-> In m l /\ name m <> "__proto__".
Proof.
  unfold stored. rewrite filter_In, negb_true_iff, String.eqb_neq.
  reflexivity.
Qed.

Lemma stored_names_In (l : list Material) (k : string) :
  In k (map name (stored l)) <-> In k (map name l) /\ k <> "__proto__".
Proof.
  rewrite !in_map_iff. split.
  - intros (m & <- & Hm). apply stored_In in Hm as [Hm Hne].
    split; [exists m; split; [reflexivity | exact Hm] | exact Hne].
  - intros [(m & <- & Hm) Hne]. exists m. split; [reflexivity |].
    apply stored_In. split; assumption.
Qed.

Lemma stored_names_NoDup (l : list Material) :
  List.NoDup (map name l) -> List.NoDup (map name (stored l)).
Proof.
  induction l as [| m l IH]; intros Hnd; [exact Hnd |].
  cbn [map] in Hnd. apply List.NoDup_cons_iff in Hnd as [Hm Hnd].
  cbn [stored List.filter].
  destruct (negb (String.eqb (name m) "__proto__")); [| now apply IH].
  cbn [map]. apply List.NoDup_cons; [| now apply IH].
  intros Hin. apply Hm. now apply stored_names_In in Hin as [Hin _].
Qed.

Lemma stored_Permutation (l l' : list Material) :
  Permutation l l' -> Permutation (stored l) (stored l').
Proof.
  intros Hp. induction Hp as [| m l l' _ IH | m m' l | l l' l'' _ IH _ IH'].
  - constructor.
  - cbn [stored List.filter].
    destruct (negb (String.eqb (name m) "__proto__"));
      [now constructor | exact IH].
  - cbn [stored List.filter].
    destruct (negb (String.eqb (name m) "__proto__")),
             (negb (String.eqb (name m') "__proto__"));
      try reflexivity. constructor.
  - now transitivity (stored l').
Qed.

End RadarFacts.





(** The worked example of the specification: on a higher-is-better axis
    with values 10, 20 and 30, the scores are 0, 50 and 100, and a
    material without a value scores 50. *)
Example normalizer_extremes :
  Radar.score Radar.samples Radar.youngsModulus_axis Radar.sample_low = 0
  /\ Radar.score Radar.samples Radar.youngsModulus_axis Radar.sample_mid = 50
  /\ Radar.score Radar.samples Radar.youngsModulus_axis Radar.sample_high = 100
  /\ Radar.score Radar.samples Radar.youngsModulus_axis Radar.sample_blank = 50.
Proof.
  assert (Hp : In Radar.youngsModulus_axis Radar.radarProperties)
    by (left; reflexivity).
  unfold Radar.score, Radar.normalizedValue. cbv zeta.
  destruct (extrema_lookup (Radar.processedMaterials Radar.samples)
              Radar.youngsModulus_axis Hp) as [-> ->].
  change (Radar.values (Radar.processedMaterials Radar.samples)
            (Radar.key Radar.youngsModulus_axis)) with [10; 20; 30].
  change (Radar.prop (Radar.process Radar.sample_low)
            (Radar.key Radar.youngsModulus_axis)) with (Some 10).
  change (Radar.prop (Radar.process Radar.sample_mid)
            (Radar.key Radar.youngsModulus_axis)) with (Some 20).
  change (Radar.prop (Radar.process Radar.sample_high)
            (Radar.key Radar.youngsModulus_axis)) with (Some 30).
  change (Radar.prop (Radar.process Radar.sample_blank)
            (Radar.key Radar.youngsModulus_axis)) with (@None R).
  assert (Hmm : Radar.min_max [10; 20; 30] = (10, 30)).
  { cbn [Radar.min_max Radar.Math_min Radar.Math_max fold_left].
    rewrite (Rmin_left 10 20), (Rmin_left 10 30) by lra.
    rewrite (Rmax_right 10 20), (Rmax_right 20 30) by lra.
    reflexivity. }
  rewrite Hmm.
  cbn [fst snd Radar.higherIsBetter Radar.youngsModulus_axis negb].
  repeat split; num_cases.
Qed.

(** C5. The two numbers used for an axis are the minimum and the maximum
    of the values defined on it across all materials of the input: every
    material's value on the axis lies between them, and as soon as one
    material has a value each of the two is the value of some material of
    the input (when none has, they are [0] and [1]).  Nothing depends on
    the order of the input: permuting the material list leaves the stored
    extrema, and with them every material's score on every axis,
    unchanged; with distinct names the chart data itself is unchanged. *)
Theorem normalization_order_independent
    (materials materials' : list Radar.Material) :
  Permutation materials materials' ->
  (forall p, In p Radar.radarProperties ->
     let value := fun m => Radar.prop (Radar.process m) (Radar.key p) in
     exists min max : R,
       fst (Radar.extrema (Radar.processedMaterials materials)) !! Radar.key p
         = Some min
       /\ snd (Radar.extrema (Radar.processedMaterials materials)) !! Radar.key p
         = Some max
       /\ (forall m v, In m materials -> value m = Some v -> min <= v <= max)
       /\ ((exists m, In m materials /\ value m <> None) ->
            (exists m, In m materials /\ value m = Some min)
            /\ (exists m, In m materials /\ value m = Some max))
       /\ ((forall m, In m materials -> value m = None) ->
            min = 0 /\ max = 1))
  /\ Radar.extrema (Radar.processedMaterials materials)
     = Radar.extrema (Radar.processedMaterials materials')
  /\ (forall p m, Radar.score materials p m = Radar.score materials' p m)
  /\ (List.NoDup (map Radar.name materials) ->
      Radar.normalizedData materials = Radar.normalizedData materials').
Proof.
  intros Hperm.
  assert (Hpp : Permutation (Radar.processedMaterials materials)
                  (Radar.processedMaterials materials'))
    by now apply Permutation_map.
  pose proof (extrema_perm _ _ Hpp) as Hext.
  split; [| split; [exact Hext | split]].
  - intros p Hp value.
    destruct (extrema_of_materials (Radar.processedMaterials materials) p Hp)
      as (mn & mx & Hmin & Hmax & Hbound & Hatt & Hnone).
    assert (Hsrc : forall pm, In pm (Radar.processedMaterials materials) ->
              exists m, In m materials /\ pm = Radar.process m).
    { intros pm Hpm. apply in_map_iff in Hpm as (m & <- & Hm). eauto. }
    exists mn, mx. split; [exact Hmin |]. split; [exact Hmax |].
    split; [| split].
    + intros m v Hm Hv. apply (Hbound (Radar.process m)); [| exact Hv].
      now apply in_map.
    + intros (m & Hm & Hv).
      destruct Hatt as [(m1 & Hm1 & Hv1) (m2 & Hm2 & Hv2)].
      { exists (Radar.process m). split; [now apply in_map | exact Hv]. }
      apply Hsrc in Hm1 as (n1 & Hn1 & ->).
      apply Hsrc in Hm2 as (n2 & Hn2 & ->).
      split; [exists n1 | exists n2]; split; assumption.
    + intros Hall. apply Hnone. intros pm Hpm.
      apply Hsrc in Hpm as (m & Hm & ->). now apply Hall.
  - intros p m. unfold Radar.score. cbv zeta. rewrite Hext. reflexivity.
  - intros Hnd. unfold Radar.normalizedData. cbv zeta. rewrite <- Hext.
    apply map_ext. intros p. rewrite !axisPoint_stored.
    apply (fold_insert_perm Radar.name
             (fun mat => Radar.CNum
                (Radar.normalizedValue
                   (fst (Radar.extrema (Radar.processedMaterials materials)))
                   (snd (Radar.extrema (Radar.processedMaterials materials)))
                   (Radar.key p) (Radar.higherIsBetter p) mat))).
    + apply stored_names_NoDup. rewrite processed_names. exact Hnd.
    + apply stored_Permutation. exact Hpp.
Qed.

Lemma normalization_order_independent_witness :
  fst (Radar.extrema (Radar.processedMaterials Radar.samples))
    !! "youngsModulus" = Some 10
  /\ snd (Radar.extrema (Radar.processedMaterials Radar.samples))
       !! "youngsModulus" = Some 30
  /\ Radar.score Radar.samples Radar.youngsModulus_axis Radar.sample_mid
     = Radar.score (rev Radar.samples) Radar.youngsModulus_axis
         Radar.sample_mid.
Proof.
  destruct (normalization_order_independent Radar.samples (rev Radar.samples)
              (Permutation_rev Radar.samples))
    as (Hext & _ & Hscore & _).
  destruct (Hext Radar.youngsModulus_axis (or_introl eq_refl))
    as (mn & mx & Hmin & Hmax & Hbound & Hatt & _).
  cbv zeta in Hbound, Hatt.
  change (Radar.key Radar.youngsModulus_axis) with "youngsModulus"
    in Hmin, Hmax.
  assert (Hlow : mn <= 10 <= mx).
  { apply (Hbound Radar.sample_low); [left; reflexivity | reflexivity]. }
  assert (Hhigh : mn <= 30 <= mx).
  { apply (Hbound Radar.sample_high);
      [right; right; left; reflexivity | reflexivity]. }
  destruct Hatt as [(m1 & Hm1 & Hv1) (m2 & Hm2 & Hv2)].
  { exists Radar.sample_low. split; [left; reflexivity | discriminate]. }
  assert (Hmn : mn = 10).
  { destruct Hm1 as [<- | [<- | [<- | [<- | []]]]];
      try discriminate Hv1; injection Hv1 as Hv1; lra. }
  assert (Hmx : mx = 30).
  { destruct Hm2 as [<- | [<- | [<- | [<- | []]]]];
      try discriminate Hv2; injection Hv2 as Hv2; lra. }
  rewrite Hmin, Hmax, Hmn, Hmx.
  split; [reflexivity |]. split; [reflexivity |]. apply Hscore.
Defined.

(** * Further properties of the code *)

(** ** The beam solver *)



(** X2.  In exact arithmetic the solver is mirror symmetric: measuring both
    the load position and the evaluation point from the right support
    instead of the left gives the same deflection.  (The two sides are
    computed by different expressions, so in binary64 they can differ in
    the last digit.) *)
Theorem deflection_mirror (L P E I a x : R) :
  E <> 0 -> I <> 0 -> L <> 0 -> 0 <= a <= L -> 0 <= x <= L ->
  Beam.calculateSimpleBeamPointLoadDeflection L P E I (L - a) (L - x)
  = Beam.calculateSimpleBeamPointLoadDeflection L P E I a x.
Proof.
  intros HE HI HL Ha Hx.
  rewrite !deflection_in_span by (auto; lra).
  unfold mret, outcome_ret. do 2 f_equal.
  unfold Beam.deflection_left, Beam.deflection_right. cbv zeta.
  destruct (Rle_dec (L - x) (L - a)), (Rle_dec x a).
  - assert (x = a) by lra. subst x. field. auto.
  - field. auto.
  - field. auto.
  - lra.
Qed.

Lemma deflection_mirror_witness :
  Beam.calculateSimpleBeamPointLoadDeflection 2 1000 200e9 8.33e-6
    (2 - 0.5) (2 - 1.2)
  = Beam.calculateSimpleBeamPointLoadDeflection 2 1000 200e9 8.33e-6 0.5 1.2.
Proof.
  apply (deflection_mirror 2 1000 200e9 8.33e-6 0.5 1.2); lra.
Defined.

(** X3.  In exact arithmetic, with a non-negative load and positive
    stiffness the deflection is non-negative everywhere on the span.
    (In binary64 the factor [L*L - b*b - x*x] can come out negative by
    cancellation when [a] and [x] are tiny against [L].) *)
Theorem deflection_nonnegative (L P E I a x : R) :
  0 <= P -> 0 < E -> 0 < I -> 0 <= a <= L -> 0 <= x <= L -> 0 < L ->
  exists d,
    Beam.calculateSimpleBeamPointLoadDeflection L P E I a x
      = Outcome [] (Normal d)
    /\ 0 <= d.
Proof.
  intros HP HE HI Ha Hx HL.
  rewrite deflection_in_span by lra.
  eexists. split; [reflexivity |].
  assert (Hden : 0 < / (6 * E * I * L)).
  { apply Rinv_0_lt_compat. repeat apply Rmult_lt_0_compat; lra. }
  destruct (Rle_dec x a).
  - unfold Beam.deflection_left, Rdiv. cbv zeta.
    apply Rmult_le_pos; [apply Rmult_le_pos; [| lra] |].
    + repeat apply Rmult_le_pos; lra.
    + nra.
  - unfold Beam.deflection_right, Rdiv.
    apply Rmult_le_pos; [apply Rmult_le_pos; [| lra] |].
    + repeat apply Rmult_le_pos; lra.
    + nra.
Qed.

Lemma deflection_nonnegative_witness :
  exists d,
    Beam.calculateSimpleBeamPointLoadDeflection 2 1000 200e9 8.33e-6 0.5 1.2
      = Outcome [] (Normal d)
    /\ 0 <= d.
Proof.
  apply (deflection_nonnegative 2 1000 200e9 8.33e-6 0.5 1.2); lra.
Defined.

(** X4.  Superposition, in exact arithmetic: for every input, valid or not,
    the value returned for the sum of two loads is the sum of the values
    returned for each; the console output does not depend on the load.
    (In binary64 the sum holds up to rounding.) *)
Theorem deflection_superposition (L P1 P2 E I a x : R) :
  exists d1 d2,
    result (Beam.calculateSimpleBeamPointLoadDeflection L P1 E I a x)
      = Normal d1
    /\ result (Beam.calculateSimpleBeamPointLoadDeflection L P2 E I a x)
      = Normal d2
    /\ result (Beam.calculateSimpleBeamPointLoadDeflection L (P1 + P2) E I a x)
      = Normal (d1 + d2)
    /\ console (Beam.calculateSimpleBeamPointLoadDeflection L (P1 + P2) E I a x)
      = console (Beam.calculateSimpleBeamPointLoadDeflection L P1 E I a x).
Proof.
  unfold Beam.calculateSimpleBeamPointLoadDeflection.
  destruct ((E === 0) || (I === 0) || (L === 0)) eqn:Hdeg.
  { exists 0, 0. cbn. repeat split; f_equal; lra. }
  destruct ((a <? 0) || (a >? L)).
  { exists 0, 0. cbn. repeat split; f_equal; lra. }
  destruct ((x <? 0) || (x >? L)).
  { exists 0, 0. cbn. repeat split; f_equal; lra. }
  assert (HE : E <> 0 /\ I <> 0 /\ L <> 0).
  { apply orb_false_iff in Hdeg as [Hdeg HL].
    apply orb_false_iff in Hdeg as [HE HI].
    rewrite num_eq_false in HE, HI, HL. auto. }
  destruct HE as (HE & HI & HL).
  destruct (x <=? a); do 2 eexists; cbn;
    (split; [reflexivity |]); (split; [reflexivity |]);
    (split; [| reflexivity]); f_equal;
    unfold Beam.deflection_left, Beam.deflection_right; cbv zeta;
    field; auto.
Qed.

(** X5.  In exact arithmetic, for a centred load the maximum is reported at
    midspan, with the classic magnitude [P L³ / (48 E I)].  (In binary64
    the square root of the location formula returns [L/2] up to
    rounding.) *)
Theorem max_deflection_centered (L P E I : R) :
  0 < L -> P <> 0 -> E <> 0 -> I <> 0 ->
  Beam.calculateSimpleBeamMaxDeflection L P E I (L / 2)
  = Outcome []
      (Normal (Some {| Beam.maxDeflection := P * L^3 / (48 * E * I);
                       Beam.location := L / 2 |})).
Proof.
  intros HL HP HE HI.
  assert (Hx : Beam.x_max L (L / 2) = L / 2).
  { unfold Beam.x_max. cbv zeta.
    destruct (num_le_true (L / 2) (L - L / 2)) as [_ ->]; [| lra].
    replace ((L * L - (L - L / 2) * (L - L / 2)) / 3)
      with ((L / 2) * (L / 2)) by field.
    apply sqrt_square. lra. }
  unfold Beam.calculateSimpleBeamMaxDeflection. cbv zeta. rewrite Hx.
  rewrite deflection_in_span by (auto; lra).
  destruct (Rle_dec (L / 2) (L / 2)); [| lra].
  num_cases. cbn. do 3 f_equal.
  unfold Beam.deflection_left. cbv zeta. f_equal. field. auto.
Qed.

Lemma max_deflection_centered_witness :
  Beam.calculateSimpleBeamMaxDeflection 2 1000 200e9 8.33e-6 (2 / 2)
  = Outcome []
      (Normal (Some {| Beam.maxDeflection := 1000 * 2^3 / (48 * 200e9 * 8.33e-6);
                       Beam.location := 2 / 2 |})).
Proof.
  apply (max_deflection_centered 2 1000 200e9 8.33e-6); lra.
Defined.

(** The two square roots of the location formulas add up to [L] only for
    a centred load. *)
Lemma stationary_points_differ (L a X U : R) :
  0 < a < L -> 2 * a <> L -> 0 < X -> 0 < U ->
  X * X = (L * L - (L - a) * (L - a)) / 3 ->
  U * U = (L * L - a * a) / 3 ->
  X + U <> L.
Proof.
  intros Ha Hne HX HU HXX HUU Hsum.
  assert (HXU : X * U = (L * L - a * L + a * a) / 3).
  { assert (H2 : (X + U) * (X + U) = L * L) by (rewrite Hsum; ring).
    lra. }
  assert (Hsq : (X * U) * (X * U) = (X * X) * (U * U)) by ring.
  rewrite HXU, HXX, HUU in Hsq.
  assert (Hz : (L - 2 * a) * (L - 2 * a) * (L * L) = 0).
  { apply (Rmult_eq_reg_l (/ 9)); [| lra].
    transitivity ((L * L - a * L + a * a) / 3 * ((L * L - a * L + a * a) / 3)
                  - (L * L - (L - a) * (L - a)) / 3 * ((L * L - a * a) / 3));
      [field | lra]. }
  apply Rmult_integral in Hz as [Hz | Hz]; [| nra].
  apply Rmult_integral in Hz as [Hz | Hz]; lra.
Qed.

(** X6.  For an off-centre load on a beam with positive load and stiffness the
    reported maximum is not the maximum: the solver itself returns a
    strictly larger deflection at another point of the span. *)
Theorem max_deflection_not_maximal (L P E I a : R) :
  0 < P -> 0 < E -> 0 < I -> 0 < a < L -> 2 * a <> L ->
  exists reported x larger,
    Beam.calculateSimpleBeamMaxDeflection L P E I a
      = Outcome [] (Normal (Some {| Beam.maxDeflection := reported;
                                    Beam.location := Beam.x_max L a |}))
    /\ 0 < x < L
    /\ Beam.calculateSimpleBeamPointLoadDeflection L P E I a x
      = Outcome [] (Normal larger)
    /\ reported < larger.
Proof.
  intros HP HE HI Ha Hne.
  assert (HL : 0 < L) by lra.
  set (X := sqrt ((L * L - (L - a) * (L - a)) / 3)).
  set (U := sqrt ((L * L - a * a) / 3)).
  destruct (sqrt_inside L _ HL (x_max_left_arg L a Ha)) as [HX0 HXL].
  destruct (sqrt_inside L _ HL (x_max_right_arg L a Ha)) as [HU0 HUL].
  fold X in HX0, HXL. fold U in HU0, HUL.
  assert (HXX : X * X = (L * L - (L - a) * (L - a)) / 3).
  { apply sqrt_sqrt. destruct (x_max_left_arg L a Ha). lra. }
  assert (HUU : U * U = (L * L - a * a) / 3).
  { apply sqrt_sqrt. destruct (x_max_right_arg L a Ha). lra. }
  pose proof (stationary_points_differ L a X U Ha Hne HX0 HU0 HXX HUU) as Hd.
  assert (Hden : 0 < / (6 * E * I * L)).
  { apply Rinv_0_lt_compat. repeat apply Rmult_lt_0_compat; lra. }
  assert (Hgap : 0 < (L - X - U) * (L - X - U)) by nra.
  destruct (Rle_dec a (L - a)) as [Hab | Hab].
  - (* load in the left half: both points lie right of the load *)
    assert (Hxm : Beam.x_max L a = X).
    { unfold Beam.x_max. cbv zeta.
      destruct (num_le_true a (L - a)) as [_ ->]; [reflexivity | exact Hab]. }
    assert (HXa : a < X) by nra.
    assert (HUa : a < L - U) by nra.
    exists (Beam.deflection_right L P E I a X), (L - U),
           (Beam.deflection_right L P E I a (L - U)).
    split; [| split; [lra | split]].
    + unfold Beam.calculateSimpleBeamMaxDeflection. cbv zeta. rewrite Hxm.
      rewrite deflection_in_span by lra.
      destruct (Rle_dec X a); [lra |]. num_cases. reflexivity.
    + rewrite deflection_in_span by lra.
      destruct (Rle_dec (L - U) a); [lra | reflexivity].
    + apply Rlt_0_minus.
      replace (Beam.deflection_right L P E I a (L - U)
               - Beam.deflection_right L P E I a X)
        with (P * a * / (6 * E * I * L)
              * ((L - X - U) * (L - X - U) * (L - X + 2 * U))).
      * apply Rmult_lt_0_compat;
          [repeat apply Rmult_lt_0_compat; lra |].
        apply Rmult_lt_0_compat; lra.
      * unfold Beam.deflection_right.
        replace (L * L - a * a) with (3 * (U * U)) by lra.
        field. lra.
  - (* load in the right half: both points lie left of the load *)
    assert (Hxm : Beam.x_max L a = L - U).
    { unfold Beam.x_max. cbv zeta.
      destruct (num_le_false a (L - a)) as [_ ->]; [reflexivity | lra]. }
    assert (HXa : X < a) by nra.
    assert (HUa : L - U < a) by nra.
    exists (Beam.deflection_left L P E I a (L - U)), X,
           (Beam.deflection_left L P E I a X).
    split; [| split; [lra | split]].
    + unfold Beam.calculateSimpleBeamMaxDeflection. cbv zeta. rewrite Hxm.
      rewrite deflection_in_span by lra.
      destruct (Rle_dec (L - U) a); [| lra]. num_cases. reflexivity.
    + rewrite deflection_in_span by lra.
      destruct (Rle_dec X a); [reflexivity | lra].
    + apply Rlt_0_minus.
      replace (Beam.deflection_left L P E I a X
               - Beam.deflection_left L P E I a (L - U))
        with (P * (L - a) * / (6 * E * I * L)
              * ((L - X - U) * (L - X - U) * (L - U + 2 * X))).
      * apply Rmult_lt_0_compat;
          [repeat apply Rmult_lt_0_compat; lra |].
        apply Rmult_lt_0_compat; lra.
      * unfold Beam.deflection_left. cbv zeta.
        replace (L * L - (L - a) * (L - a)) with (3 * (X * X)) by lra.
        field. lra.
Qed.

Lemma max_deflection_not_maximal_witness :
  exists reported x larger,
    Beam.calculateSimpleBeamMaxDeflection 2 1000 200e9 8.33e-6 0.5
      = Outcome [] (Normal (Some {| Beam.maxDeflection := reported;
                                    Beam.location := Beam.x_max 2 0.5 |}))
    /\ 0 < x < 2
    /\ Beam.calculateSimpleBeamPointLoadDeflection 2 1000 200e9 8.33e-6 0.5 x
      = Outcome [] (Normal larger)
    /\ reported < larger.
Proof.
  apply (max_deflection_not_maximal 2 1000 200e9 8.33e-6 0.5); lra.
Defined.

(** ** The seeding script: the whole payload *)

Lemma payload_fields_listed_key (mat : Seed.MaterialData) (keys : list string)
    (payload : gmap string Seed.value) (k : string) :
  In k keys ->
  fold_left
    (fun payload key =>
       match Seed.field mat key with
       | Some v => <[key := v]> payload
       | None => payload
       end)
    keys payload !! k
  = match Seed.field mat k with
    | Some v => Some v
    | None => payload !! k
    end.
Proof.
  revert payload. induction keys as [| key keys IH]; intros payload Hk;
    [destruct Hk |].
  cbn [fold_left].
  destruct (in_dec String.string_dec k keys) as [Hin | Hout].
  - rewrite IH by exact Hin.
    destruct (Seed.field mat k) eqn:Hf; [reflexivity |].
    destruct (String.string_dec key k) as [-> | Hne].
    + rewrite Hf. reflexivity.
    + destruct (Seed.field mat key); [| reflexivity].
      now apply lookup_insert_ne.
  - rewrite payload_fields_other_key by exact Hout.
    destruct Hk as [-> | Hin]; [| contradiction].
    destruct (Seed.field mat k); [apply lookup_insert_eq | reflexivity].
Qed.

(** X7.  The payload always carries the name and the category; an optional
    field is present exactly when the material has it, with the
    material's value, so that a missing value never overwrites a stored
    one; and no other key than these and [shearModulus] is written. *)
Theorem seed_payload_contents (mat : Seed.MaterialData) (calculated : option R) :
  let payload := Seed.createMaterialPayload mat calculated in
  payload !! "name" = Some (Seed.VStr (Seed.name mat))
  /\ payload !! "category" = Some (Seed.VStr (Seed.category mat))
  /\ (forall key, In key Seed.optionalFields ->
        payload !! key = Seed.field mat key)
  /\ (forall key, payload !! key <> None ->
        key = "name" \/ key = "category" \/ key = "shearModulus"
        \/ In key Seed.optionalFields).
Proof.
  cbv zeta.
  assert (Hbase : forall k, k <> "shearModulus" ->
            Seed.createMaterialPayload mat calculated !! k
            = fold_left
                (fun payload key =>
                   match Seed.field mat key with
                   | Some v => <[key := v]> payload
                   | None => payload
                   end)
                Seed.optionalFields
                (<["category" := Seed.VStr (Seed.category mat)]>
                   (<["name" := Seed.VStr (Seed.name mat)]>
                      (∅ : gmap string Seed.value))) !! k).
  { intros k Hk. unfold Seed.createMaterialPayload. cbv zeta.
    destruct (match Seed.shearModulus mat with
              | Some g => Some g
              | None => calculated
              end); [| reflexivity].
    apply lookup_insert_ne. congruence. }
  assert (Hopt : forall k, In k Seed.optionalFields ->
            k <> "shearModulus" /\ k <> "name" /\ k <> "category").
  { intros k Hk. unfold Seed.optionalFields in Hk. cbn [In] in Hk.
    repeat (destruct Hk as [<- | Hk]; [repeat split; discriminate |]).
    destruct Hk. }
  split; [| split; [| split]].
  - rewrite Hbase by discriminate.
    rewrite payload_fields_other_key.
    + rewrite lookup_insert_ne by discriminate. apply lookup_insert_eq.
    + intros Hin. apply Hopt in Hin. tauto.
  - rewrite Hbase by discriminate.
    rewrite payload_fields_other_key.
    + apply lookup_insert_eq.
    + intros Hin. apply Hopt in Hin. tauto.
  - intros key Hkey. destruct (Hopt key Hkey) as (Hs & Hn & Hc).
    rewrite Hbase by exact Hs.
    rewrite payload_fields_listed_key by exact Hkey.
    destruct (Seed.field mat key); [reflexivity |].
    rewrite !lookup_insert_ne by congruence. apply lookup_empty.
  - intros key Hkey.
    destruct (String.string_dec key "shearModulus") as [-> | Hs]; [tauto |].
    destruct (String.string_dec key "name") as [-> | Hn]; [tauto |].
    destruct (String.string_dec key "category") as [-> | Hc]; [tauto |].
    destruct (in_dec String.string_dec key Seed.optionalFields) as [Hin | Hout];
      [tauto |].
    exfalso. apply Hkey. rewrite Hbase by exact Hs.
    rewrite payload_fields_other_key by exact Hout.
    rewrite !lookup_insert_ne by congruence. apply lookup_empty.
Qed.

Lemma seed_payload_contents_witness :
  Seed.seed_payload Seed.soda_lime_glass !! "yieldStrength" = None
  /\ Seed.seed_payload Seed.soda_lime_glass !! "density"
     = Some (Seed.VNum 2400).
Proof.
  destruct (seed_payload_contents Seed.soda_lime_glass
              (Seed.calculateShearModulus
                 (Seed.youngsModulus Seed.soda_lime_glass)
                 (Seed.poissonsRatio Seed.soda_lime_glass)))
    as (_ & _ & H & _).
  split.
  - apply (H "yieldStrength"). cbn. tauto.
  - apply (H "density"). cbn. tauto.
Defined.

(** ** The materials table: selecting materials to compare *)

Lemma includes_In (ids : list string) (id : string) :
  TableControls.includes ids id = true <-> In id ids.
Proof.
  unfold TableControls.includes. rewrite existsb_exists. split.
  - intros (x & Hx & Heq). apply String.eqb_eq in Heq. now subst.
  - intros Hin. exists id. split; [exact Hin | apply String.eqb_refl].
Qed.

Lemma filter_other_ids (ids : list string) (id : string) :
  ~ In id ids ->
  List.filter (fun selectedId => negb (String.eqb selectedId id)) ids = ids.
Proof.
  induction ids as [| x ids IH]; intros Hout; [reflexivity |].
  cbn [List.filter].
  destruct (String.eqb_spec x id) as [-> | Hne].
  - exfalso. apply Hout. now left.
  - cbn [negb]. f_equal. apply IH. intros Hin. apply Hout. now right.
Qed.

(** X8.  Ticking a box never selects more than six materials and never
    selects one twice: a selected id is removed, an unselected id is
    appended while fewer than six are selected, and ignored otherwise. *)
Theorem selection_capped_and_distinct (id : string) (prev : list string) :
  (length prev <= TableControls.MAX_COMPARE_ITEMS)%nat -> List.NoDup prev ->
  let next := TableControls.handleSelectMaterial id prev in
  (length next <= TableControls.MAX_COMPARE_ITEMS)%nat
  /\ List.NoDup next
  /\ (In id prev ->
      ~ In id next /\ forall other, other <> id -> In other next <-> In other prev)
  /\ (~ In id prev -> (length prev < TableControls.MAX_COMPARE_ITEMS)%nat ->
      next = (prev ++ [id])%list)
  /\ (~ In id prev -> length prev = TableControls.MAX_COMPARE_ITEMS ->
      next = prev).
Proof.
  intros Hlen Hnd next. subst next. unfold TableControls.handleSelectMaterial.
  destruct (TableControls.includes prev id) eqn:Hinc.
  - apply includes_In in Hinc.
    split; [| split; [| split; [| split]]].
    + pose proof (filter_length_le
                    (fun selectedId => negb (String.eqb selectedId id)) prev).
      lia.
    + now apply List.NoDup_filter.
    + intros _. split.
      * rewrite filter_In. intros [_ Hf]. rewrite String.eqb_refl in Hf.
        discriminate.
      * intros other Hne. rewrite filter_In. split; [tauto |].
        intros Hin. split; [exact Hin |].
        apply negb_true_iff. now apply String.eqb_neq.
    + tauto.
    + tauto.
  - assert (Hout : ~ In id prev).
    { intros Hin. apply includes_In in Hin. congruence. }
    unfold TableControls.MAX_COMPARE_ITEMS in *.
    destruct (Nat.ltb_spec (length prev) 6) as [Hlt | Hge].
    + split; [| split; [| split; [| split]]]; try tauto.
      * rewrite length_app. cbn [length]. lia.
      * apply List.NoDup_app; [exact Hnd | |].
        -- apply List.NoDup_cons; [intros [] | apply List.NoDup_nil].
        -- intros a Ha [<- | []]. contradiction.
      * intros _ Heq. lia.
    + split; [| split; [| split; [| split]]]; try tauto.
      intros _ Hlt. lia.
Qed.

Lemma selection_capped_and_distinct_witness :
  (length (TableControls.handleSelectMaterial "c" ["a"; "b"]) <= 6)%nat
  /\ List.NoDup (TableControls.handleSelectMaterial "c" ["a"; "b"]).
Proof.
  destruct (selection_capped_and_distinct "c" ["a"; "b"]) as (H1 & H2 & _).
  - unfold TableControls.MAX_COMPARE_ITEMS. cbn. lia.
  - repeat (apply List.NoDup_cons; [cbn; intuition discriminate |]).
    apply List.NoDup_nil.
  - split; [exact H1 | exact H2].
Defined.

(** X9.  Ticking and unticking a box restores the selection: toggling an
    unselected id twice, with room left, gives back the list. *)
Theorem selection_toggle_round_trip (id : string) (prev : list string) :
  ~ In id prev -> (length prev < TableControls.MAX_COMPARE_ITEMS)%nat ->
  TableControls.handleSelectMaterial id
    (TableControls.handleSelectMaterial id prev) = prev.
Proof.
  intros Hout Hlt.
  assert (H1 : TableControls.handleSelectMaterial id prev = (prev ++ [id])%list).
  { unfold TableControls.handleSelectMaterial.
    destruct (TableControls.includes prev id) eqn:Hinc.
    - apply includes_In in Hinc. contradiction.
    - destruct (Nat.ltb_spec (length prev) TableControls.MAX_COMPARE_ITEMS);
        [reflexivity | lia]. }
  rewrite H1. unfold TableControls.handleSelectMaterial.
  destruct (TableControls.includes (prev ++ [id]) id) eqn:Hinc.
  - rewrite List.filter_app, filter_other_ids by exact Hout.
    cbn [List.filter]. rewrite String.eqb_refl. cbn [negb].
    apply app_nil_r.
  - exfalso. assert (Hin : In id (prev ++ [id])).
    { apply in_or_app. right. now left. }
    apply includes_In in Hin. congruence.
Qed.

Lemma selection_toggle_round_trip_witness :
  TableControls.handleSelectMaterial "c"
    (TableControls.handleSelectMaterial "c" ["a"; "b"]) = ["a"; "b"].
Proof.
  apply (selection_toggle_round_trip "c" ["a"; "b"]).
  - cbn. intuition discriminate.
  - unfold TableControls.MAX_COMPARE_ITEMS. cbn. lia.
Defined.

(** ** From the selection to the compare page *)

Lemma split_without_separator (sep : Ascii.ascii) (s : string) :
  ~ In sep (String.list_ascii_of_string s) -> CompareRoute.split sep s = [s].
Proof.
  induction s as [| c s IH]; intros Hs; [reflexivity |].
  cbn [CompareRoute.split]. cbn [String.list_ascii_of_string In] in Hs.
  destruct (Ascii.eqb_spec c sep) as [-> | Hne]; [tauto |].
  rewrite IH by tauto. reflexivity.
Qed.

Lemma split_after_piece (sep : Ascii.ascii) (x rest : string) :
  ~ In sep (String.list_ascii_of_string x) ->
  CompareRoute.split sep (x ++ String sep rest)
  = x :: CompareRoute.split sep rest.
Proof.
  induction x as [| c x IH]; intros Hx.
  - change ("" ++ String sep rest) with (String sep rest).
    cbn [CompareRoute.split]. rewrite Ascii.eqb_refl. reflexivity.
  - change (String c x ++ String sep rest)
      with (String c (x ++ String sep rest)).
    cbn [CompareRoute.split].
    cbn [String.list_ascii_of_string In] in Hx.
    destruct (Ascii.eqb_spec c sep) as [-> | Hne]; [tauto |].
    rewrite IH by tauto. reflexivity.
Qed.

(** X10.  The ids the compare page reads from the query are the ids the table
    joined into it, in order, provided no id is empty or contains a
    comma; the table pushes a route exactly when something is selected. *)
Theorem compare_ids_round_trip (selectedIds : list string) :
  Forall (fun i => i <> "" /\ ~ In CompareRoute.comma (String.list_ascii_of_string i))
    selectedIds ->
  CompareRoute.ids (CompareRoute.Single (TableControls.join "," selectedIds))
    = selectedIds
  /\ TableControls.handleCompare selectedIds
     = match selectedIds with
       | [] => None
       | _ :: _ =>
           Some ("/materials/compare?ids="
                   ++ TableControls.join "," selectedIds)
       end.
Proof.
  intros Hids. split; [| destruct selectedIds; reflexivity].
  unfold CompareRoute.ids.
  induction selectedIds as [| x ids IH]; [reflexivity |].
  apply Forall_cons_iff in Hids as [[Hx Hsep] Hids].
  specialize (IH Hids).
  assert (Hkeep : negb (String.eqb x "") = true).
  { apply negb_true_iff. now apply String.eqb_neq. }
  destruct ids as [| y ids].
  - cbn [TableControls.join].
    rewrite split_without_separator by exact Hsep.
    cbn [List.filter]. rewrite Hkeep. reflexivity.
  - change (TableControls.join "," (x :: y :: ids))
      with (x ++ String CompareRoute.comma (TableControls.join "," (y :: ids))).
    rewrite split_after_piece by exact Hsep.
    cbn [List.filter]. rewrite Hkeep. f_equal. exact IH.
Qed.

Lemma compare_ids_round_trip_witness :
  CompareRoute.ids
    (CompareRoute.Single (TableControls.join "," ["clx1"; "clx2"; "clx3"]))
  = ["clx1"; "clx2"; "clx3"].
Proof.
  apply (compare_ids_round_trip ["clx1"; "clx2"; "clx3"]).
  repeat (apply List.Forall_cons;
          [split; [discriminate | cbn; intuition discriminate] |]).
  apply List.Forall_nil.
Defined.

(** X11.  The compare page lists the materials in the order of the requested
    ids, skipping ids that match no material: each listed material is one
    of those fetched, and when every id is known the listed ids are
    exactly the requested ones. *)
Theorem ordered_materials_follow_ids
    (materials : list CompareRoute.InferredMaterialData)
    (orderedIds : list string) :
  let shown := CompareRoute.orderedMaterials materials orderedIds in
  map CompareRoute.id shown
    = List.filter
        (fun i => existsb (fun m => String.eqb (CompareRoute.id m) i) materials)
        orderedIds
  /\ (forall m, In m shown -> In m materials)
  /\ ((forall i, In i orderedIds -> In i (map CompareRoute.id materials)) ->
      map CompareRoute.id shown = orderedIds).
Proof.
  cbv zeta. unfold CompareRoute.orderedMaterials.
  induction orderedIds as [| i ids IH].
  - split; [reflexivity | split; [intros m [] | reflexivity]].
  - destruct IH as (IH1 & IH2 & IH3). cbn [omap list_omap List.filter].
    fold (omap (fun i0 : string =>
                  find (fun m => String.eqb (CompareRoute.id m) i0) materials)
               ids).
    destruct (find (fun m => String.eqb (CompareRoute.id m) i) materials)
      as [m |] eqn:Hfind.
    + apply find_some in Hfind as [Hin Heq].
      apply String.eqb_eq in Heq.
      assert (Hex : existsb (fun m0 => String.eqb (CompareRoute.id m0) i)
                      materials = true).
      { apply existsb_exists. exists m. split; [exact Hin |].
        now apply String.eqb_eq. }
      rewrite Hex. cbn [map]. split; [| split].
      * now rewrite IH1, Heq.
      * intros m' [<- | Hm']; [exact Hin | now apply IH2].
      * intros Hall. rewrite Heq. f_equal. apply IH3.
        intros j Hj. apply Hall. now right.
    + pose proof (find_none _ _ Hfind) as Hnone.
      assert (Hex : existsb (fun m0 => String.eqb (CompareRoute.id m0) i)
                      materials = false).
      { apply not_true_is_false. intros Hex.
        apply existsb_exists in Hex as (m & Hin & Heq).
        rewrite (Hnone m Hin) in Heq. discriminate. }
      rewrite Hex. split; [exact IH1 | split; [exact IH2 |]].
      intros Hall. exfalso.
      assert (Hi : In i (map CompareRoute.id materials))
        by (apply Hall; now left).
      apply in_map_iff in Hi as (m & Heq & Hin).
      specialize (Hnone m Hin). cbv beta in Hnone.
      rewrite Heq, String.eqb_refl in Hnone.
      discriminate.
Qed.

(** ** The materials table: paging *)

Lemma Math_ceil_div_spec (n k : Z) :
  (0 < k)%Z ->
  (k * (TableControls.Math_ceil_div n k - 1) < n
   <= k * TableControls.Math_ceil_div n k)%Z.
Proof.
  intros Hk. unfold TableControls.Math_ceil_div.
  pose proof (Z.div_mod (- n) k ltac:(lia)) as Hdm.
  pose proof (Z.mod_pos_bound (- n) k Hk) as Hb.
  lia.
Qed.

Lemma page_slice {A : Type} (l : list A) (page k : Z) :
  (0 < k)%Z -> (1 <= page)%Z ->
  TableControls.paginatedMaterials l page k
  = firstn (Z.to_nat (Z.min (page * k) (Z.of_nat (length l))
                      - Z.min ((page - 1) * k) (Z.of_nat (length l))))
      (skipn (Z.to_nat (Z.min ((page - 1) * k) (Z.of_nat (length l)))) l).
Proof.
  intros Hk Hp. unfold TableControls.paginatedMaterials, TableControls.slice.
  cbv zeta.
  destruct (Z.ltb_spec ((page - 1) * k) 0) as [Hneg | _]; [nia |].
  destruct (Z.ltb_spec ((page - 1) * k + k) 0) as [Hneg | _]; [nia |].
  replace ((page - 1) * k + k)%Z with (page * k)%Z by ring.
  reflexivity.
Qed.

(** X12.  Every item of the sorted list is shown exactly where the page size
    puts it: item [i] is entry [i mod k] of page [i / k + 1], and that
    page is one of the pages counted by [totalPages]. *)
Theorem paging_places_every_item {A : Type} (l : list A) (k : Z) (i : nat) :
  (0 < k)%Z -> (i < length l)%nat ->
  let page := (Z.of_nat i / k + 1)%Z in
  nth_error (TableControls.paginatedMaterials l page k)
    (Z.to_nat (Z.of_nat i mod k))
  = nth_error l i
  /\ (1 <= page <= TableControls.totalPages l k)%Z.
Proof.
  intros Hk Hi page.
  pose proof (Z.div_mod (Z.of_nat i) k ltac:(lia)) as Hdm.
  pose proof (Z.mod_pos_bound (Z.of_nat i) k Hk) as Hb.
  assert (Hq : (0 <= Z.of_nat i / k)%Z) by (apply Z.div_pos; lia).
  pose proof (Math_ceil_div_spec (Z.of_nat (length l)) k Hk) as Hc.
  split.
  - rewrite page_slice by (subst page; lia).
    subst page. replace (Z.of_nat i / k + 1 - 1)%Z with (Z.of_nat i / k)%Z by ring.
    rewrite nth_error_firstn, nth_error_skipn.
    destruct (Nat.ltb_spec
                (Z.to_nat (Z.of_nat i mod k))
                (Z.to_nat (Z.min ((Z.of_nat i / k + 1) * k) (Z.of_nat (length l))
                           - Z.min (Z.of_nat i / k * k) (Z.of_nat (length l)))))
      as [_ | Hge]; [f_equal; nia | nia].
  - unfold TableControls.totalPages. cbv zeta. subst page. nia.
Qed.

Lemma paging_places_every_item_witness :
  nth_error (TableControls.paginatedMaterials ["a"; "b"; "c"; "d"; "e"] 2 2) 1
  = Some "d".
Proof.
  apply (paging_places_every_item ["a"; "b"; "c"; "d"; "e"] 2 3).
  - lia.
  - cbn. lia.
Defined.

(** X13.  A page never shows more than the page size; every page before the
    last is full; the pages from the first to the last are not empty,
    and a page beyond the last is empty. *)
Theorem page_sizes {A : Type} (l : list A) (page k : Z) :
  (0 < k)%Z -> (1 <= page)%Z ->
  let shown := TableControls.paginatedMaterials l page k in
  let total := TableControls.totalPages l k in
  (Z.of_nat (length shown) <= k)%Z
  /\ ((page < total)%Z -> Z.of_nat (length shown) = k)
  /\ ((page <= total)%Z -> shown <> [])
  /\ ((total < page)%Z -> shown = []).
Proof.
  intros Hk Hp shown total. subst shown total.
  unfold TableControls.totalPages. cbv zeta.
  pose proof (Math_ceil_div_spec (Z.of_nat (length l)) k Hk) as Hc.
  rewrite page_slice by assumption.
  set (len := Z.of_nat (length l)) in *.
  assert (Hlen : length
            (firstn (Z.to_nat (Z.min (page * k) len - Z.min ((page - 1) * k) len))
               (skipn (Z.to_nat (Z.min ((page - 1) * k) len)) l))
          = Z.to_nat (Z.min (page * k) len - Z.min ((page - 1) * k) len)).
  { rewrite length_firstn, length_skipn. subst len. nia. }
  split; [| split; [| split]].
  - rewrite Hlen. nia.
  - intros Hlt. rewrite Hlen. nia.
  - intros Hle Hnil. rewrite Hnil in Hlen. cbn [length] in Hlen. nia.
  - intros Hgt. apply length_zero_iff_nil. rewrite Hlen. nia.
Qed.

Lemma page_sizes_witness :
  (Z.of_nat (length (TableControls.paginatedMaterials
                       ["a"; "b"; "c"; "d"; "e"] 3 2)) <= 2)%Z.
Proof.
  apply (page_sizes ["a"; "b"; "c"; "d"; "e"] 3 2); lia.
Defined.

Lemma page_nonempty {A : Type} (l : list A) (page k : Z) :
  (0 < k)%Z -> (1 <= page <= TableControls.totalPages l k)%Z ->
  TableControls.paginatedMaterials l page k <> [].
Proof.
  intros Hk Hp. unfold TableControls.totalPages in Hp. cbv zeta in Hp.
  pose proof (Math_ceil_div_spec (Z.of_nat (length l)) k Hk) as Hc.
  rewrite page_slice by lia. intros Hnil.
  apply (f_equal (@length A)) in Hnil.
  rewrite length_firstn, length_skipn in Hnil. cbn [length] in Hnil. nia.
Qed.

(** X14.  Next and Previous never leave the pages that show something: from a
    page in [[1, totalPages]] both lead to a page in that range, one step
    away unless already at the end, and the page reached is not empty. *)
Theorem page_navigation_shows_items {A : Type} (l : list A) (page k : Z) :
  (0 < k)%Z -> (1 <= page <= TableControls.totalPages l k)%Z ->
  let total := TableControls.totalPages l k in
  let next := TableControls.handleNextPage total page in
  let prev := TableControls.handlePrevPage page in
  next = (if (page <? total)%Z then page + 1 else page)%Z
  /\ prev = (if (1 <? page)%Z then page - 1 else page)%Z
  /\ TableControls.paginatedMaterials l next k <> []
  /\ TableControls.paginatedMaterials l prev k <> [].
Proof.
  intros Hk Hp total next prev. subst next prev.
  unfold TableControls.handleNextPage, TableControls.handlePrevPage.
  fold total in Hp.
  split; [destruct (Z.ltb_spec page total); lia |].
  split; [destruct (Z.ltb_spec 1 page); lia |].
  split; apply page_nonempty; fold total; lia.
Qed.

Lemma page_navigation_shows_items_witness :
  TableControls.paginatedMaterials ["a"; "b"; "c"; "d"; "e"]
    (TableControls.handleNextPage
       (TableControls.totalPages ["a"; "b"; "c"; "d"; "e"] 2) 3) 2 <> [].
Proof.
  apply (page_navigation_shows_items ["a"; "b"; "c"; "d"; "e"] 3 2).
  - lia.
  - change (TableControls.totalPages ["a"; "b"; "c"; "d"; "e"] 2) with 3%Z.
    lia.
Defined.

(** ** The materials table: the sort comparator *)

(** X15.  The comparator is consistent: descending order is the exact mirror of
    ascending order, missing values included, and swapping the two
    arguments flips the sign whenever the string collation does. *)
Theorem comparator_consistent (localeCompare : string -> string -> R)
    (a b : TableControls.cell) :
  TableControls.compare localeCompare TableControls.desc a b
    = - TableControls.compare localeCompare TableControls.asc a b
  /\ ((forall s t, localeCompare t s = - localeCompare s t) ->
      forall sortDirection,
        TableControls.compare localeCompare sortDirection b a
        = - TableControls.compare localeCompare sortDirection a b).
Proof.
  split.
  - destruct a, b; cbn; lra.
  - intros Hlc dir.
    destruct a as [| x | s], b as [| y | t], dir; cbn; try lra;
      pose proof (Hlc s t); lra.
Qed.

Lemma comparator_consistent_witness :
  TableControls.compare (fun _ _ => 0) TableControls.asc
    (TableControls.Num 7830) TableControls.Null
  = - TableControls.compare (fun _ _ => 0) TableControls.asc
        TableControls.Null (TableControls.Num 7830).
Proof.
  apply (comparator_consistent (fun _ _ => 0)). intros s t. lra.
Defined.

(** ** The bar chart *)

Section BarChartFacts.

Variables (materials : list Radar.Material) (propertyKey : string).

Lemma bar_max_fold (ms : list Radar.Material) (start : R) :
  let step := fun (max : R) (material : Radar.Material) =>
    match BarChart.getValue propertyKey material with
    | Some displayVal => if displayVal >? max then displayVal else max
    | None => max
    end in
  let r := fold_left step ms start in
  start <= r
  /\ (forall m v, In m ms -> BarChart.getValue propertyKey m = Some v -> v <= r)
  /\ (r = start
      \/ exists m, In m ms /\ BarChart.getValue propertyKey m = Some r).
Proof.
  cbv zeta. revert start. induction ms as [| m ms IH]; intros start.
  - cbn. split; [lra |]. split; [intros m v [] | now left].
  - cbn [fold_left].
    set (start' := match BarChart.getValue propertyKey m with
                   | Some displayVal =>
                       if displayVal >? start then displayVal else start
                   | None => start
                   end).
    destruct (IH start') as (Hle & Hall & Hsrc).
    assert (Hs : start <= start'
                 /\ (forall v, BarChart.getValue propertyKey m = Some v ->
                       v <= start')
                 /\ (start' = start
                     \/ BarChart.getValue propertyKey m = Some start')).
    { subst start'. destruct (BarChart.getValue propertyKey m) as [v |].
      - unfold num_gt, num_lt. destruct (Rlt_dec start v).
        + split; [lra |]. split; [intros v' [= <-]; lra | now right].
        + split; [lra |]. split; [intros v' [= <-]; lra | now left].
      - split; [lra |]. split; [discriminate | now left]. }
    destruct Hs as (Hs1 & Hs2 & Hs3).
    split; [lra |]. split.
    + intros m' v [<- | Hin] Hv.
      * specialize (Hs2 v Hv). lra.
      * now apply (Hall m').
    + destruct Hsrc as [-> | (m' & Hin & Hv)].
      * destruct Hs3 as [-> | Hv]; [now left |].
        right. exists m. split; [now left | exact Hv].
      * right. exists m'. split; [now right | exact Hv].
Qed.

End BarChartFacts.

(** X16.  The scale of a bar chart is always positive, and no bar is ever
    drawn outside the track or at full width: every bar's width lies
    between 0 and 100/1.1 percent. *)
Theorem bar_widths_bounded (materials : list Radar.Material)
    (propertyKey : string) (m : Radar.Material) :
  In m materials ->
  let maxValue := BarChart.maxValue materials propertyKey in
  let width :=
    BarChart.barWidth
      (BarChart.percentage maxValue (BarChart.getValue propertyKey m)) in
  0 < maxValue /\ 0 <= width <= 100 / 1.1.
Proof.
  intros Hm maxValue width. subst width maxValue.
  unfold BarChart.maxValue. cbv zeta.
  destruct (bar_max_fold propertyKey materials 0) as (H0 & Hall & _).
  cbv zeta in H0, Hall.
  set (mx := fold_left _ materials 0) in *.
  assert (Hpos : 0 < (if mx >? 0 then mx * 1.1 else 1)).
  { unfold num_gt, num_lt. destruct (Rlt_dec 0 mx); lra. }
  split; [exact Hpos |].
  unfold BarChart.barWidth, BarChart.percentage.
  destruct (BarChart.getValue propertyKey m) as [v |] eqn:Hv.
  - specialize (Hall m v Hm Hv).
    set (mv := if mx >? 0 then mx * 1.1 else 1) in *.
    destruct (num_lt_true 0 mv) as [_ Hgt]. unfold num_gt. rewrite Hgt by exact Hpos.
    assert (Hp : v / mv * 100 <= 100 / 1.1).
    { assert (Hv1 : v * 1.1 <= mv).
      { subst mv. unfold num_gt, num_lt. destruct (Rlt_dec 0 mx); lra. }
      apply (Rmult_le_reg_r (mv * 1.1)); [nra |].
      replace (v / mv * 100 * (mv * 1.1)) with (v * 1.1 * 100) by (field; lra).
      replace (100 / 1.1 * (mv * 1.1)) with (mv * 100) by lra.
      lra. }
    split.
    + apply Rmax_l.
    + apply Rmax_lub; [lra |].
      eapply Rle_trans; [apply Rmin_r | exact Hp].
  - rewrite (Rmin_right 100 0) by lra. rewrite Rmax_left by lra. lra.
Qed.

Lemma bar_widths_bounded_witness :
  0 < BarChart.maxValue Radar.samples "youngsModulus"
  /\ 0 <= BarChart.barWidth
            (BarChart.percentage
               (BarChart.maxValue Radar.samples "youngsModulus")
               (BarChart.getValue "youngsModulus" Radar.sample_high))
     <= 100 / 1.1.
Proof.
  apply (bar_widths_bounded Radar.samples "youngsModulus" Radar.sample_high).
  right. right. left. reflexivity.
Defined.

Lemma maxValue_positive (materials : list Radar.Material) (propertyKey : string) :
  0 < BarChart.maxValue materials propertyKey.
Proof.
  unfold BarChart.maxValue. cbv zeta. unfold num_gt, num_lt.
  match goal with |- context [Rlt_dec 0 ?mx] => destruct (Rlt_dec 0 mx) end;
    lra.
Qed.

Lemma hasValidData_true (materials : list Radar.Material) (propertyKey : string) :
  BarChart.hasValidData materials propertyKey = true
  <-> exists m v, In m materials
        /\ BarChart.getValue propertyKey m = Some v /\ 0 < v.
Proof.
  unfold BarChart.hasValidData. rewrite existsb_exists. split.
  - intros (m & Hm & Hv).
    destruct (BarChart.getValue propertyKey m) as [v |] eqn:Hg;
      [| discriminate].
    exists m, v. split; [exact Hm | split; [exact Hg |]].
    apply num_lt_true. exact Hv.
  - intros (m & v & Hm & Hv & Hpos). exists m. split; [exact Hm |].
    rewrite Hv. apply num_lt_true. exact Hpos.
Qed.

Lemma samples_have_data :
  BarChart.hasValidData Radar.samples "youngsModulus" = true.
Proof.
  apply hasValidData_true. exists Radar.sample_low, 10.
  split; [left; reflexivity |]. split; [reflexivity | lra].
Qed.

(** The chart that is drawn when there is data. *)
Lemma bar_chart_drawn (materials : list Radar.Material) (propertyKey : string) :
  BarChart.hasValidData materials propertyKey = true ->
  BarChart.ComparisonBarChart materials propertyKey
  = Some {| BarChart.bars :=
              map (fun material =>
                     BarChart.barWidth
                       (BarChart.percentage
                          (BarChart.maxValue materials propertyKey)
                          (BarChart.getValue propertyKey material)))
                materials;
            BarChart.axis :=
              map (BarChart.tickPercentage
                     (BarChart.maxValue materials propertyKey))
                (BarChart.ticks (BarChart.maxValue materials propertyKey)) |}.
Proof.
  intros Hvalid. unfold BarChart.ComparisonBarChart. cbv zeta.
  rewrite Hvalid. reflexivity.
Qed.

Lemma bar_chart_omitted (materials : list Radar.Material) (propertyKey : string) :
  BarChart.hasValidData materials propertyKey = false ->
  BarChart.ComparisonBarChart materials propertyKey = None.
Proof.
  intros Hvalid. unfold BarChart.ComparisonBarChart. cbv zeta.
  rewrite Hvalid. reflexivity.
Qed.

(** X17.  A bar chart is drawn exactly when some material has a positive
    value; otherwise the component returns its "no comparable data" text.
    A chart that is drawn has one bar per material; its scale is 1.1
    times the largest value, which is positive and attained by a
    material; and in exact arithmetic the bar of that material is
    [100/1.1] percent wide.  (In binary64 the product by 1.1 and the
    quotient round, so that width is [100/1.1] up to rounding.) *)
Theorem bar_chart_scale (materials : list Radar.Material)
    (propertyKey : string) :
  (BarChart.ComparisonBarChart materials propertyKey = None
   <-> forall m v, In m materials ->
         BarChart.getValue propertyKey m = Some v -> v <= 0)
  /\ forall chart,
       BarChart.ComparisonBarChart materials propertyKey = Some chart ->
       let maxValue := BarChart.maxValue materials propertyKey in
       length (BarChart.bars chart) = length materials
       /\ exists m v,
            In m materials /\ BarChart.getValue propertyKey m = Some v
            /\ 0 < v
            /\ (forall m' v', In m' materials ->
                  BarChart.getValue propertyKey m' = Some v' -> v' <= v)
            /\ maxValue = v * 1.1
            /\ BarChart.barWidth (BarChart.percentage maxValue (Some v))
               = 100 / 1.1
            /\ In (100 / 1.1) (BarChart.bars chart).
Proof.
  destruct (BarChart.hasValidData materials propertyKey) eqn:Hvalid.
  - rewrite (bar_chart_drawn _ _ Hvalid).
    pose proof Hvalid as Hex.
    apply hasValidData_true in Hex as (m0 & v0 & Hm0 & Hv0 & Hpos).
    split.
    { split; [discriminate |]. intros Hnon.
      specialize (Hnon m0 v0 Hm0 Hv0). lra. }
    intros chart [= <-]. cbv zeta. cbn [BarChart.bars].
    split; [apply length_map |].
    assert (Hmax : exists mx,
              BarChart.maxValue materials propertyKey = mx * 1.1 /\ 0 < mx
              /\ (forall m v, In m materials ->
                    BarChart.getValue propertyKey m = Some v -> v <= mx)
              /\ exists m, In m materials
                    /\ BarChart.getValue propertyKey m = Some mx).
    { unfold BarChart.maxValue. cbv zeta.
      destruct (bar_max_fold propertyKey materials 0) as (H0 & Hall & Hsrc).
      cbv zeta in H0, Hall, Hsrc.
      set (mx := fold_left _ materials 0) in *.
      pose proof (Hall m0 v0 Hm0 Hv0) as Hle.
      destruct Hsrc as [Hz | Hsrc]; [lra |].
      exists mx. destruct (num_lt_true 0 mx) as [_ Hgt]. unfold num_gt.
      rewrite Hgt by lra. repeat split; [lra | exact Hall | exact Hsrc]. }
    destruct Hmax as (mx & Hscale & Hmx & Hall & m & Hm & Hv).
    exists m, mx. split; [exact Hm |]. split; [exact Hv |].
    split; [exact Hmx |]. split; [exact Hall |]. split; [exact Hscale |].
    assert (Hwidth : BarChart.barWidth
                       (BarChart.percentage
                          (BarChart.maxValue materials propertyKey) (Some mx))
                     = 100 / 1.1).
    { rewrite Hscale. unfold BarChart.barWidth, BarChart.percentage, num_gt.
      destruct (num_lt_true 0 (mx * 1.1)) as [_ ->]; [| lra].
      replace (mx / (mx * 1.1) * 100) with (100 / 1.1) by (field; lra).
      rewrite Rmin_right by lra. apply Rmax_right. lra. }
    split; [exact Hwidth |].
    apply in_map_iff. exists m. split; [| exact Hm].
    rewrite Hv. exact Hwidth.
  - rewrite (bar_chart_omitted _ _ Hvalid).
    split; [| discriminate]. split; [| reflexivity].
    intros _ m v Hm Hv. destruct (Rle_dec v 0) as [Hle | Hgt]; [exact Hle |].
    exfalso. assert (Ht : BarChart.hasValidData materials propertyKey = true).
    { apply hasValidData_true. exists m, v. repeat split; auto. lra. }
    congruence.
Qed.

Lemma bar_chart_scale_witness :
  exists chart,
    BarChart.ComparisonBarChart Radar.samples "youngsModulus" = Some chart
    /\ BarChart.maxValue Radar.samples "youngsModulus" = 30 * 1.1
    /\ In (100 / 1.1) (BarChart.bars chart).
Proof.
  destruct (BarChart.ComparisonBarChart Radar.samples "youngsModulus")
    as [chart |] eqn:Hchart.
  - exists chart. split; [reflexivity |].
    destruct (bar_chart_scale Radar.samples "youngsModulus") as [_ Hdrawn].
    destruct (Hdrawn chart Hchart)
      as (_ & m & v & Hm & Hv & _ & Hall & Hscale & _ & Hbar).
    split; [| exact Hbar].
    assert (Hhigh : 30 <= v).
    { apply (Hall Radar.sample_high);
        [right; right; left; reflexivity | reflexivity]. }
    rewrite Hscale. f_equal.
    destruct Hm as [<- | [<- | [<- | [<- | []]]]];
      try discriminate Hv; injection Hv as Hv; lra.
  - exfalso.
    destruct (bar_chart_scale Radar.samples "youngsModulus") as [[Hnone _] _].
    specialize (Hnone Hchart Radar.sample_low 10 (or_introl eq_refl) eq_refl).
    lra.
Defined.

(** X18.  The axis of a bar chart that is drawn has six ticks, from 0 to the
    scale in five equal steps; in exact arithmetic they are placed at 0,
    20, 40, 60, 80 and 100 percent.  (In binary64 the quotient and the
    products round, so the positions are these up to rounding.) *)
Theorem bar_axis_ticks (materials : list Radar.Material) (propertyKey : string)
    (chart : BarChart.Chart) :
  BarChart.ComparisonBarChart materials propertyKey = Some chart ->
  let maxValue := BarChart.maxValue materials propertyKey in
  BarChart.axis chart = [0; 20; 40; 60; 80; 100]
  /\ length (BarChart.ticks maxValue) = 6%nat
  /\ nth_error (BarChart.ticks maxValue) 0 = Some 0
  /\ nth_error (BarChart.ticks maxValue) 5 = Some maxValue.
Proof.
  intros Hchart. cbv zeta.
  destruct (BarChart.hasValidData materials propertyKey) eqn:Hvalid;
    [| rewrite (bar_chart_omitted _ _ Hvalid) in Hchart; discriminate].
  rewrite (bar_chart_drawn _ _ Hvalid) in Hchart.
  injection Hchart as <-. cbn [BarChart.axis].
  pose proof (maxValue_positive materials propertyKey) as Hpos.
  set (mv := BarChart.maxValue materials propertyKey) in *.
  unfold BarChart.ticks, BarChart.numTicks, BarChart.tickPercentage, num_gt.
  destruct (num_lt_true 0 mv) as [_ ->]; [| exact Hpos].
  cbn [seq map nth_error length]. simpl INR.
  split; [| split; [reflexivity | split]].
  - repeat (apply f_equal2; [field; lra |]). reflexivity.
  - f_equal. field.
  - f_equal. field.
Qed.

Lemma bar_axis_ticks_witness :
  exists chart,
    BarChart.ComparisonBarChart Radar.samples "youngsModulus" = Some chart
    /\ BarChart.axis chart = [0; 20; 40; 60; 80; 100].
Proof.
  eexists. split; [apply bar_chart_drawn, samples_have_data |].
  apply (bar_axis_ticks Radar.samples "youngsModulus").
  apply bar_chart_drawn, samples_have_data.
Defined.

(** ** The beam drawing *)

(** X19.  The drawing is omitted exactly when the deflection is missing or the
    length is not positive.  Otherwise, in a viewport at least as large
    as its padding (width and height at least 40), the drawn deflection
    is non-negative and capped at 80 % of the room below the beam, so the
    control point of the curve stays between the beam line and the
    bottom padding; in a lower viewport no curve is drawn at all. *)
Theorem drawing_stays_in_view (props : BeamVisualization.Props) :
  (BeamVisualization.BeamVisualization props = None
   <-> BeamVisualization.deflection props = None
       \/ BeamVisualization.length props <= 0)
  /\ forall d, BeamVisualization.BeamVisualization props = Some d ->
       let W := default 400 (BeamVisualization.svgWidth props) in
       let H := default 100 (BeamVisualization.svgHeight props) in
       (40 <= W -> 40 <= H ->
          0 <= BeamVisualization.visualDeflection d <= (H / 2 - 20) * 0.8
          /\ BeamVisualization.beamY d
             <= snd (BeamVisualization.control d) <= H - 20)
       /\ (H < 40 -> BeamVisualization.showCurve d = false).
Proof.
  unfold BeamVisualization.BeamVisualization. cbv zeta.
  set (W := default 400 (BeamVisualization.svgWidth props)).
  set (H := default 100 (BeamVisualization.svgHeight props)).
  destruct (BeamVisualization.deflection props) as [defl |].
  - unfold num_le, num_gt, num_lt, BeamVisualization.padding.
    destruct (Rle_dec (BeamVisualization.length props) 0) as [Hl | Hl].
    + split; [split; [intros _; now right | reflexivity] | discriminate].
    + split; [split; [discriminate | intros [Hd | Hd]; [discriminate | lra]] |].
      intros d [= <-]. cbn [BeamVisualization.visualDeflection
                             BeamVisualization.beamY BeamVisualization.control
                             BeamVisualization.showCurve snd].
      destruct (Rlt_dec 0 (BeamVisualization.length props)) as [Hpos | ]; [| lra].
      set (raw := Rabs defl * ((W - 2 * 20) / BeamVisualization.length props)).
      split.
      * intros HW HH.
        assert (Hraw : 0 <= raw).
        { unfold raw, Rdiv. apply Rmult_le_pos; [apply Rabs_pos |].
          apply Rmult_le_pos; [lra |].
          left. now apply Rinv_0_lt_compat. }
        pose proof (Rmin_r raw ((H / 2 - 20) * 0.8)) as Hr.
        assert (H0 : 0 <= Rmin raw ((H / 2 - 20) * 0.8)).
        { apply Rmin_glb; lra. }
        lra.
      * intros HH. pose proof (Rmin_r raw ((H / 2 - 20) * 0.8)) as Hr.
        destruct (Rlt_dec 0 (Rmin raw ((H / 2 - 20) * 0.8))); [lra | reflexivity].
  - split; [split; [intros _; now left | reflexivity] | discriminate].
Qed.

Lemma drawing_stays_in_view_witness :
  exists d,
    BeamVisualization.BeamVisualization
      {| BeamVisualization.length := 2;
         BeamVisualization.deflection := Some 0.0001;
         BeamVisualization.shape := BeamVisualization.direct;
         BeamVisualization.base := None;
         BeamVisualization.height := None;
         BeamVisualization.diameter := None;
         BeamVisualization.svgWidth := None;
         BeamVisualization.svgHeight := None |} = Some d
    /\ 0 <= BeamVisualization.visualDeflection d <= (100 / 2 - 20) * 0.8.
Proof.
  destruct (BeamVisualization.BeamVisualization _) as [d |] eqn:Hd.
  - exists d. split; [reflexivity |].
    apply (drawing_stays_in_view _) in Hd as [Hd _].
    apply Hd; cbn; lra.
  - exfalso. apply (drawing_stays_in_view _) in Hd as [Hd | Hd].
    + discriminate Hd.
    + cbn in Hd. lra.
Defined.

(** X20.  A cross-section, when one is drawn, is drawn only for the shape it
    belongs to, with the dimensions given and a positive scale; in exact
    arithmetic the scale makes its larger dimension take the 40 units
    between the paddings of its 50-unit viewport, and the stroke width is
    the inverse of the scale.  (In binary64 the products [scale * maxDim]
    and [strokeWidth * scale] are 40 and 1 up to rounding.) *)
Theorem section_fills_viewport (props : BeamVisualization.Props)
    (s : BeamVisualization.SectionElement) :
  BeamVisualization.section props = Some s ->
  match s with
  | BeamVisualization.Rect scale x y width height strokeWidth =>
      BeamVisualization.shape props = BeamVisualization.rectangle
      /\ BeamVisualization.base props = Some width
      /\ BeamVisualization.height props = Some height
      /\ 0 < scale /\ scale * Rmax width height = 40
      /\ scale * width <= 40 /\ scale * height <= 40
      /\ strokeWidth * scale = 1
  | BeamVisualization.Circle scale cx cy r strokeWidth =>
      BeamVisualization.shape props = BeamVisualization.circle
      /\ BeamVisualization.diameter props = Some (2 * r)
      /\ 0 < scale /\ scale * (2 * r) = 40
      /\ strokeWidth * scale = 1
  end.
Proof.
  unfold BeamVisualization.section, BeamVisualization.maxDim. cbv zeta.
  unfold BeamVisualization.sectionSvgSize, BeamVisualization.sectionPadding.
  destruct (BeamVisualization.is_rectangle (BeamVisualization.shape props)
            && BeamVisualization.truthy (BeamVisualization.base props)
            && BeamVisualization.truthy (BeamVisualization.height props))
    eqn:Hrect.
  - apply andb_true_iff in Hrect as [Hrect Hh].
    apply andb_true_iff in Hrect as [Hshape Hb].
    destruct (BeamVisualization.base props) as [b |]; [| discriminate Hb].
    destruct (BeamVisualization.height props) as [h |]; [| discriminate Hh].
    cbv [default from_option Datatypes.id]. unfold num_gt, num_lt.
    destruct (Rlt_dec 0 (Rmax b h)) as [Hpos |]; [| intros [=]].
    cbv beta iota. intros [= <-].
    assert (Hscale : 0 < (50 - 2 * 5) / Rmax b h).
    { unfold Rdiv. apply Rmult_lt_0_compat; [lra |].
      now apply Rinv_0_lt_compat. }
    assert (Hfull : (50 - 2 * 5) / Rmax b h * Rmax b h = 40)
      by (field; lra).
    split.
    { destruct (BeamVisualization.shape props); [reflexivity | discriminate..]. }
    split; [reflexivity |]. split; [reflexivity |].
    split; [exact Hscale |]. split; [exact Hfull |].
    pose proof (Rmax_l b h). pose proof (Rmax_r b h).
    split; [nra |]. split; [nra |]. field. repeat split; lra.
  - destruct (BeamVisualization.is_circle (BeamVisualization.shape props)
              && BeamVisualization.truthy (BeamVisualization.diameter props))
      eqn:Hcirc.
    + apply andb_true_iff in Hcirc as [Hshape Hd].
      destruct (BeamVisualization.diameter props) as [dia |];
        [| discriminate Hd].
      cbv [default from_option Datatypes.id]. unfold num_gt, num_lt.
      destruct (Rlt_dec 0 dia) as [Hpos |]; [| intros [=]].
      cbv beta iota. intros [= <-].
      split.
      { destruct (BeamVisualization.shape props);
          [discriminate | reflexivity | discriminate]. }
      split; [f_equal; field |].
      split.
      { unfold Rdiv. apply Rmult_lt_0_compat; [lra |].
        now apply Rinv_0_lt_compat. }
      split; field; repeat split; lra.
    + unfold num_gt, num_lt. destruct (Rlt_dec 0 0); [lra | intros [=]].
Qed.

Lemma section_fills_viewport_witness :
  exists scale x y strokeWidth,
    BeamVisualization.section
      {| BeamVisualization.length := 2;
         BeamVisualization.deflection := Some 0.0001;
         BeamVisualization.shape := BeamVisualization.rectangle;
         BeamVisualization.base := Some 0.05;
         BeamVisualization.height := Some 0.1;
         BeamVisualization.diameter := None;
         BeamVisualization.svgWidth := None;
         BeamVisualization.svgHeight := None |}
    = Some (BeamVisualization.Rect scale x y 0.05 0.1 strokeWidth)
    /\ scale * Rmax 0.05 0.1 = 40
    /\ strokeWidth * scale = 1.
Proof.
  set (props := {| BeamVisualization.length := 2;
                   BeamVisualization.deflection := Some 0.0001;
                   BeamVisualization.shape := BeamVisualization.rectangle;
                   BeamVisualization.base := Some 0.05;
                   BeamVisualization.height := Some 0.1;
                   BeamVisualization.diameter := None;
                   BeamVisualization.svgWidth := None;
                   BeamVisualization.svgHeight := None |}).
  assert (Hs : BeamVisualization.section props
               = Some (BeamVisualization.Rect
                         ((50 - 2 * 5) / Rmax 0.05 0.1)
                         ((50 - 0.05) / 2) ((50 - 0.1) / 2) 0.05 0.1
                         (1 / ((50 - 2 * 5) / Rmax 0.05 0.1)))).
  { unfold BeamVisualization.section, BeamVisualization.maxDim,
      BeamVisualization.sectionSvgSize, BeamVisualization.sectionPadding.
    cbn [props BeamVisualization.shape BeamVisualization.base
         BeamVisualization.height BeamVisualization.is_rectangle
         BeamVisualization.truthy andb].
    destruct (num_eq_false 0.05 0) as [_ ->]; [| lra].
    destruct (num_eq_false 0.1 0) as [_ ->]; [| lra].
    cbn [negb andb]. cbv [default from_option Datatypes.id]. unfold num_gt.
    destruct (num_lt_true 0 (Rmax 0.05 0.1)) as [_ ->]; [reflexivity |].
    apply Rlt_le_trans with 0.05; [lra | apply Rmax_l]. }
  pose proof (section_fills_viewport props _ Hs) as H.
  cbv beta iota in H.
  destruct H as (_ & _ & _ & _ & Hfull & _ & _ & Hstroke).
  do 4 eexists. split; [exact Hs |]. split; [exact Hfull | exact Hstroke].
Defined.

(** ** The home page *)

(** X21.  Whatever the category name, the colour index lies within the palette:
    the hash stays a 32-bit integer, and [getCategoryColor] always returns
    one of the sixteen palette entries. *)
Theorem category_color_defined (codeUnits : list Z) :
  (- 2 ^ 31 <= Home.category_hash codeUnits < 2 ^ 31)%Z
  /\ (0 <= Home.color_index codeUnits < 16)%Z
  /\ exists c, Home.getCategoryColor codeUnits = Some c /\ In c Home.colors.
Proof.
  assert (Hhash : (- 2 ^ 31 <= Home.category_hash codeUnits < 2 ^ 31)%Z).
  { unfold Home.category_hash.
    assert (Hgen : forall h, (- 2 ^ 31 <= h < 2 ^ 31)%Z ->
              (- 2 ^ 31 <= fold_left Home.hash_step codeUnits h < 2 ^ 31)%Z).
    { induction codeUnits as [| c cs IH]; intros h Hh; [exact Hh |].
      cbn [fold_left]. apply IH. unfold Home.hash_step, Home.to_int32.
      cbv zeta.
      match goal with
      | |- context [(?z mod 2 ^ 32)%Z] =>
          pose proof (Z.mod_pos_bound z (2 ^ 32) ltac:(lia))
      end. lia. }
    apply Hgen. lia. }
  assert (Hidx : (0 <= Home.color_index codeUnits < 16)%Z).
  { unfold Home.color_index.
    change (Z.of_nat (length Home.colors)) with 16%Z.
    apply Z.mod_pos_bound. lia. }
  split; [exact Hhash |]. split; [exact Hidx |].
  unfold Home.getCategoryColor.
  destruct (nth_error Home.colors (Z.to_nat (Home.color_index codeUnits)))
    as [c |] eqn:Hc.
  - exists c. split; [reflexivity |]. eapply nth_error_In. exact Hc.
  - apply nth_error_None in Hc.
    change (length Home.colors) with 16%nat in Hc. lia.
Qed.

Lemma prefix_spec (sub s : string) :
  String.prefix sub s = true <-> exists post, s = sub ++ post.
Proof.
  revert s. induction sub as [| a sub IH]; intros s.
  - split; [intros _; now exists s | intros _; destruct s; reflexivity].
  - destruct s as [| b s]; cbn [String.prefix].
    + split; [discriminate | intros (post & Heq); discriminate Heq].
    + destruct (Ascii.ascii_dec a b) as [<- | Hne].
      * rewrite IH. split; intros (post & Heq); exists post.
        -- now rewrite Heq.
        -- now injection Heq.
      * split; [discriminate |]. intros (post & Heq).
        injection Heq as Hab _. congruence.
Qed.

Lemma includes_spec (s sub : string) :
  Home.includes s sub = true <-> exists pre post, s = pre ++ sub ++ post.
Proof.
  induction s as [| c s IH].
  - cbn [Home.includes]. rewrite orb_false_r, prefix_spec. split.
    + intros (post & Heq). now exists "", post.
    + intros (pre & post & Heq). destruct pre; [now exists post |].
      discriminate Heq.
  - cbn [Home.includes]. rewrite orb_true_iff, prefix_spec, IH. split.
    + intros [(post & Heq) | (pre & post & Heq)].
      * now exists "", post.
      * exists (String c pre), post. now rewrite Heq.
    + intros (pre & post & Heq). destruct pre as [| c' pre].
      * left. now exists post.
      * right. exists pre, post. now injection Heq.
Qed.

Lemma string_append_assoc (a b c : string) : (a ++ b) ++ c = a ++ (b ++ c).
Proof.
  induction a as [| x a IH]; [reflexivity |].
  change (String x ((a ++ b) ++ c) = String x (a ++ (b ++ c))).
  now rewrite IH.
Qed.

Lemma includes_longer (s pre sub : string) :
  Home.includes s (pre ++ sub) = true -> Home.includes s sub = true.
Proof.
  rewrite !includes_spec. intros (a & b & Heq).
  exists (a ++ pre), b. rewrite Heq.
  rewrite !string_append_assoc. reflexivity.
Qed.

(** X22.  Every category falls into one of the six super-categories, and the
    [fiberglass] test of the Composites rule can never decide: a name
    containing [fiberglass] contains [glass], which the Ceramics rule
    catches first, so such a category is never filed under Composites. *)
Theorem super_category_cases (toLowerCase : string -> string)
    (categoryName : string) :
  In (Home.getSuperCategory toLowerCase categoryName) Home.superCategoryOrder
  /\ (Home.includes (toLowerCase categoryName) "fiberglass" = true ->
      In (Home.getSuperCategory toLowerCase categoryName)
        ["Metals"; "Polymers"; "Ceramics"]).
Proof.
  unfold Home.getSuperCategory, Home.superCategoryOrder. cbv zeta.
  set (lc := toLowerCase categoryName).
  split.
  - repeat match goal with
           | |- In (if ?c then _ else _) _ => destruct c
           end; cbn; tauto.
  - intros Hfg.
    assert (Hglass : Home.includes lc "glass" = true)
      by (apply (includes_longer lc "fiber" "glass"); exact Hfg).
    assert (Hcer : Home.includes lc "ceramic" || Home.includes lc "glass"
                   || Home.includes lc "oxide" || Home.includes lc "nitride"
                   || Home.includes lc "carbide" = true).
    { rewrite Hglass. destruct (Home.includes lc "ceramic"); reflexivity. }
    rewrite Hcer.
    repeat match goal with
           | |- In (if ?c then _ else _) _ => destruct c
           end; cbn; tauto.
Qed.

Lemma super_category_cases_witness :
  In (Home.getSuperCategory (fun s => s) "e-glass fiberglass laminate")
    ["Metals"; "Polymers"; "Ceramics"].
Proof.
  apply (super_category_cases (fun s => s) "e-glass fiberglass laminate").
  reflexivity.
Defined.

(** X23.  Grouping is a partition that keeps the order: under each
    super-category the home page lists exactly the categories mapped to
    it, in the order received, and a super-category without categories
    has no group. *)
Theorem grouped_categories_partition (toLowerCase : string -> string)
    (categories : list string) (superCategory : string) :
  Home.groupedCategories toLowerCase categories !! superCategory
  = match List.filter
            (fun c => String.eqb (Home.getSuperCategory toLowerCase c)
                        superCategory)
            categories with
    | [] => None
    | members => Some members
    end.
Proof.
  unfold Home.groupedCategories.
  induction categories as [| c cs IH] using rev_ind.
  - cbn. apply lookup_empty.
  - rewrite fold_left_app. cbn [fold_left]. rewrite List.filter_app.
    cbn [List.filter].
    set (acc := fold_left _ cs ∅) in *.
    set (g := Home.getSuperCategory toLowerCase c).
    destruct (String.eqb_spec g superCategory) as [Heq | Hne].
    + rewrite Heq in *. rewrite lookup_insert_eq.
      destruct (List.filter _ cs) as [| m ms].
      * rewrite IH, lookup_insert_eq. reflexivity.
      * rewrite IH. cbn [default from_option]. rewrite IH. reflexivity.
    + rewrite lookup_insert_ne by exact Hne. rewrite app_nil_r.
      destruct (acc !! g); [exact IH |].
      rewrite lookup_insert_ne by exact Hne. exact IH.
Qed.

(** ** The material picker *)

(** X24.  The picker converts in the canonical direction, with the canonical
    factors of GPa and MPa, and shows a missing value as 0. *)
Theorem material_select_conversions (pascals : R) :
  Canonical.display Modulus "GPa" pascals
    = Some (MaterialSelect.convertToGPa (Some pascals))
  /\ Canonical.display Strength "MPa" pascals
    = Some (MaterialSelect.convertToMPa (Some pascals))
  /\ MaterialSelect.convertToGPa None = 0
  /\ MaterialSelect.convertToMPa None = 0.
Proof.
  unfold MaterialSelect.convertToGPa, MaterialSelect.convertToMPa, num_eq.
  repeat split; cbn; destruct (Req_EM_T pascals 0) as [-> | _]; cbn;
    f_equal; lra.
Qed.

(** ** The radar tooltip *)

Section LastWrite.

Context {A V : Type} (kf : A -> string) (vf : A -> V).

(** A key written by the loop holds the value of one of its writers. *)
Lemma fold_insert_written (l : list A) (init : gmap string V) (k : string) :
  In k (map kf l) ->
  exists a, In a l /\ kf a = k
    /\ fold_left (fun m a => <[kf a := vf a]> m) l init !! k = Some (vf a).
Proof.
  revert init. induction l as [| b l IH] using rev_ind; intros init Hk;
    [destruct Hk |].
  rewrite fold_left_app. cbn [fold_left].
  destruct (String.string_dec (kf b) k) as [Heq | Hne].
  - exists b. split; [apply in_or_app; right; now left |].
    split; [exact Heq |]. rewrite <- Heq. apply lookup_insert_eq.
  - rewrite map_app in Hk. apply in_app_or in Hk as [Hk | [Hk | []]];
      [| contradiction].
    destruct (IH init Hk) as (a & Ha & Hka & Hlook).
    exists a. split; [apply in_or_app; now left |].
    split; [exact Hka |]. rewrite lookup_insert_ne by exact Hne. exact Hlook.
Qed.

End LastWrite.

(** X25.  Hovering an axis finds its property again: the [subject] of an axis
    point is the label of its axis and identifies that axis among
    [radarProperties], unless a material is itself named [subject], in
    which case its score overwrites the label and the tooltip finds no
    property. *)
Theorem tooltip_finds_axis (processed : list Radar.Material)
    (mins maxs : gmap string R) (p : Radar.RadarProperty) :
  In p Radar.radarProperties ->
  let axisPoint := Radar.axisPoint processed mins maxs p in
  (~ In "subject" (map Radar.name processed) ->
     axisPoint !! "subject" = Some (Radar.CStr (Radar.label p))
     /\ RadarTooltip.radarProp axisPoint = Some p)
  /\ (In "subject" (map Radar.name processed) ->
     RadarTooltip.radarProp axisPoint = None).
Proof.
  intros Hp axisPoint. subst axisPoint. split.
  - intros Hno.
    assert (Hsub : Radar.axisPoint processed mins maxs p !! "subject"
                   = Some (Radar.CStr (Radar.label p))).
    { rewrite axisPoint_stored.
      rewrite (fold_insert_other Radar.name
                 (fun mat => Radar.CNum
                    (Radar.normalizedValue mins maxs (Radar.key p)
                       (Radar.higherIsBetter p) mat)))
        by (intros Hin; apply Hno; now apply stored_names_In in Hin as [Hin _]).
      rewrite lookup_insert_ne by discriminate. apply lookup_insert_eq. }
    split; [exact Hsub |].
    unfold RadarTooltip.radarProp. rewrite Hsub.
    unfold Radar.radarProperties in Hp. cbn [In] in Hp.
    repeat (destruct Hp as [<- | Hp]; [reflexivity |]). destruct Hp.
  - intros Hyes. unfold RadarTooltip.radarProp. rewrite axisPoint_stored.
    assert (Hkept : In "subject" (map Radar.name (Radar.stored processed))).
    { apply stored_names_In. split; [exact Hyes | discriminate]. }
    destruct (fold_insert_written Radar.name
                (fun mat => Radar.CNum
                   (Radar.normalizedValue mins maxs (Radar.key p)
                      (Radar.higherIsBetter p) mat))
                (Radar.stored processed)
                (<["fullMark" := Radar.CNum 100]>
                   (<["subject" := Radar.CStr (Radar.label p)]> ∅))
                "subject" Hkept) as (a & _ & _ & ->).
    reflexivity.
Qed.

Lemma tooltip_finds_axis_witness :
  RadarTooltip.radarProp
    (Radar.axisPoint Radar.samples ∅ ∅ Radar.youngsModulus_axis)
  = Some Radar.youngsModulus_axis.
Proof.
  apply (tooltip_finds_axis Radar.samples ∅ ∅ Radar.youngsModulus_axis).
  - left. reflexivity.
  - cbn. intuition discriminate.
Defined.

Lemma ordered_materials_follow_ids_witness :
  map CompareRoute.id
    (CompareRoute.orderedMaterials
       [CompareRoute.steel_row; CompareRoute.glass_row] ["clx2"; "clx1"])
  = ["clx2"; "clx1"].
Proof.
  apply (ordered_materials_follow_ids
           [CompareRoute.steel_row; CompareRoute.glass_row] ["clx2"; "clx1"]).
  cbn. intuition.
Defined.

(** ** The chart data of the compare page *)

Lemma converted_value (selectedUnits : SelectedUnits) (unitType : UnitType)
    (info : UnitInfo) (value : option R) :
  lookup_unit (ComparePage.conversionFactors unitType)
    (selected selectedUnits unitType) = Some info ->
  ComparePage.calculateConvertedValue selectedUnits value unitType
  = Outcome [] (Normal ((fun v => v / factor info) <$> value)).
Proof.
  intros Hl. unfold ComparePage.calculateConvertedValue.
  destruct value as [v |]; [| reflexivity].
  cbv zeta. unfold the_unit. rewrite Hl. reflexivity.
Qed.

Lemma chartEntry_registered (selectedUnits : SelectedUnits) (fd fm fs : R)
    (material : CompareRoute.InferredMaterialData) :
  CompareRoute.registered selectedUnits fd fm fs ->
  CompareRoute.chartEntry selectedUnits material
  = Outcome [] (Normal (CompareRoute.converted_entry fd fm fs material)).
Proof.
  intros ((id_ & Hd & <-) & (im & Hm & <-) & (is_ & Hs & <-)).
  unfold CompareRoute.chartEntry.
  rewrite (converted_value selectedUnits Density id_) by exact Hd.
  rewrite !(converted_value selectedUnits Modulus im) by exact Hm.
  rewrite !(converted_value selectedUnits Strength is_) by exact Hs.
  reflexivity.
Qed.

Lemma chartData_registered (selectedUnits : SelectedUnits) (fd fm fs : R)
    (materials : list CompareRoute.InferredMaterialData) :
  CompareRoute.registered selectedUnits fd fm fs ->
  CompareRoute.chartData selectedUnits materials
  = Outcome []
      (Normal (map (CompareRoute.converted_entry fd fm fs) materials)).
Proof.
  intros Hreg. unfold CompareRoute.chartData.
  induction materials as [| m ms IH]; [reflexivity |].
  cbn [CompareRoute.mapM map].
  rewrite (chartEntry_registered _ fd fm fs) by exact Hreg.
  rewrite IH. reflexivity.
Qed.

(** X26.  With registered units the chart data is produced without any error
    and without console output: one object per listed material, in order,
    with the material's id and name, each number being the SI value
    divided by the factor of the selected unit; a missing value stays
    missing, the thermal expansion coefficient is multiplied by [1e6],
    and a coefficient of exactly 0 is passed on as missing. *)
Theorem chart_data_conversion (selectedUnits : SelectedUnits)
    (materials : list CompareRoute.InferredMaterialData)
    (fd fm fs : R) :
  CompareRoute.registered selectedUnits fd fm fs ->
  exists chart,
    CompareRoute.chartData selectedUnits materials = Outcome [] (Normal chart)
    /\ Forall2
         (fun material entry =>
            Radar.id entry = CompareRoute.id material
            /\ Radar.name entry = CompareRoute.name material
            /\ Radar.density entry
               = (fun v => v / fd) <$> CompareRoute.density material
            /\ Radar.youngsModulus entry
               = (fun v => v / fm) <$> CompareRoute.youngsModulus material
            /\ Radar.yieldStrength entry
               = (fun v => v / fs) <$> CompareRoute.yieldStrength material
            /\ Radar.ultimateTensileStrength entry
               = (fun v => v / fs)
                   <$> CompareRoute.ultimateTensileStrength material
            /\ Radar.shearModulus entry
               = (fun v => v / fm) <$> CompareRoute.shearModulus material
            /\ Radar.thermalExpansionCoefficient entry
               = match CompareRoute.thermalExpansionCoefficient material with
                 | Some tec => if tec === 0 then None else Some (tec * 1e6)
                 | None => None
                 end)
         materials chart.
Proof.
  intros Hreg.
  exists (map (CompareRoute.converted_entry fd fm fs) materials).
  split; [now apply chartData_registered |].
  induction materials as [| m ms IH]; cbn [map]; constructor; [| exact IH].
  cbn [CompareRoute.converted_entry Radar.id Radar.name Radar.density
       Radar.youngsModulus Radar.yieldStrength Radar.ultimateTensileStrength
       Radar.shearModulus Radar.thermalExpansionCoefficient].
  repeat split.
  destruct (CompareRoute.thermalExpansionCoefficient m) as [tec |];
    [| reflexivity].
  destruct (tec === 0); reflexivity.
Qed.

Lemma chart_data_conversion_witness :
  exists chart,
    CompareRoute.chartData CompareRoute.initial_units
      [CompareRoute.steel_row; CompareRoute.glass_row]
    = Outcome [] (Normal chart)
    /\ map Radar.density chart = [Some (7830 / 1); Some (2400 / 1)]
    /\ map Radar.youngsModulus chart = [Some (200e9 / 1e9); Some (7.1e10 / 1e9)].
Proof.
  destruct (chart_data_conversion CompareRoute.initial_units
              [CompareRoute.steel_row; CompareRoute.glass_row] 1 1e9 1e6)
    as (chart & Hchart & Hentries).
  - repeat split; eexists; (split; [reflexivity |]); reflexivity.
  - exists chart. split; [exact Hchart |].
    inversion Hentries as [| m1 e1 ms1 es1 H1 Hrest]; subst.
    inversion Hrest as [| m2 e2 ms2 es2 H2 Hnil]; subst.
    inversion Hnil; subst.
    destruct H1 as (_ & _ & Hd1 & He1 & _).
    destruct H2 as (_ & _ & Hd2 & He2 & _).
    cbn [map]. rewrite Hd1, He1, Hd2, He2. split; reflexivity.
Defined.

(** ** Radar scores and the choice of units *)

Section RadarScaling.

Import Radar.

Lemma is_min_of_scaled (c : R) (vs : list R) (m : R) :
  0 < c -> is_min_of vs m -> is_min_of (map (Rmult c) vs) (c * m).
Proof.
  intros Hc [Hin Hle]. split.
  - now apply in_map.
  - intros v Hv. apply in_map_iff in Hv as (w & <- & Hw).
    specialize (Hle w Hw). nra.
Qed.

Lemma is_max_of_scaled (c : R) (vs : list R) (m : R) :
  0 < c -> is_max_of vs m -> is_max_of (map (Rmult c) vs) (c * m).
Proof.
  intros Hc [Hin Hle]. split.
  - now apply in_map.
  - intros v Hv. apply in_map_iff in Hv as (w & <- & Hw).
    specialize (Hle w Hw). nra.
Qed.

Lemma min_max_scaled (c : R) (vs : list R) :
  0 < c -> vs <> [] ->
  min_max (map (Rmult c) vs)
  = (c * fst (min_max vs), c * snd (min_max vs)).
Proof.
  intros Hc Hne. destruct (min_max_spec vs Hne) as [Hmin Hmax].
  assert (Hne' : map (Rmult c) vs <> []) by (destruct vs; [congruence | discriminate]).
  destruct (min_max_spec _ Hne') as [Hmin' Hmax'].
  rewrite (surjective_pairing (min_max (map (Rmult c) vs))). f_equal.
  - eapply is_min_of_unique; [exact Hmin' | now apply is_min_of_scaled].
  - eapply is_max_of_unique; [exact Hmax' | now apply is_max_of_scaled].
Qed.

Variable c : string -> R.
Hypothesis c_pos : forall p, In p radarProperties -> 0 < c (key p).

(** Two materials with the same name whose values on every axis differ
    by the positive factor of the axis. *)
Local Abbreviation related :=
  (fun m m' : Material =>
     name m = name m'
     /\ forall p, In p radarProperties ->
          prop m' (key p) = Rmult (c (key p)) <$> prop m (key p)).

Lemma values_scaled (ms ms' : list Material) (p : RadarProperty) :
  In p radarProperties -> Forall2 related ms ms' ->
  values ms' (key p) = map (Rmult (c (key p))) (values ms (key p)).
Proof.
  intros Hp Hrel. unfold values.
  induction Hrel as [| m m' ms ms' [_ Hm] _ IH]; [reflexivity |].
  cbn [omap list_omap].
  fold (omap (fun mat => prop mat (key p)) ms).
  fold (omap (fun mat => prop mat (key p)) ms').
  rewrite (Hm p Hp), IH.
  destruct (prop m (key p)); reflexivity.
Qed.

Lemma score_scaled_equal (ms ms' : list Material) (p : RadarProperty)
    (m m' : Material) :
  In p radarProperties -> Forall2 related ms ms' -> In m ms -> related m m' ->
  normalizedValue (fst (extrema ms')) (snd (extrema ms')) (key p)
    (higherIsBetter p) m'
  = normalizedValue (fst (extrema ms)) (snd (extrema ms)) (key p)
      (higherIsBetter p) m.
Proof.
  intros Hp Hrel Hm [_ Hmm]. unfold normalizedValue.
  destruct (extrema_lookup ms p Hp) as [-> ->].
  destruct (extrema_lookup ms' p Hp) as [-> ->].
  rewrite (Hmm p Hp).
  destruct (prop m (key p)) as [v |] eqn:Hv; [| reflexivity].
  cbn [fmap option_fmap option_map].
  pose proof (values_defined ms (key p) m v Hm Hv) as Hin.
  assert (Hne : values ms (key p) <> [])
    by (intros Heq; rewrite Heq in Hin; destruct Hin).
  destruct (min_max_spec _ Hne) as [Hmin Hmax].
  rewrite (values_scaled ms ms' p Hp Hrel), (min_max_scaled _ _ (c_pos p Hp) Hne).
  cbn [fst snd].
  set (mn := fst (min_max (values ms (key p)))) in *.
  set (mx := snd (min_max (values ms (key p)))) in *.
  pose proof (c_pos p Hp) as Hc. set (k := c (key p)) in *.
  assert (Hle : mn <= v <= mx) by (split; [apply Hmin | apply Hmax]; exact Hin).
  cbv zeta. unfold num_gt, num_lt, num_eq.
  destruct (Rlt_dec 0 (k * mx - k * mn)) as [Hr' | Hr'],
           (Rlt_dec 0 (mx - mn)) as [Hr | Hr]; try nra.
  - assert (Heq : (k * v - k * mn) / (k * mx - k * mn) * 100
                  = (v - mn) / (mx - mn) * 100) by (field; split; lra).
    rewrite Heq. reflexivity.
  - destruct (Req_EM_T (k * v) (k * mn)), (Req_EM_T v mn);
      try reflexivity; nra.
Qed.

Lemma fold_related (f f' : Material -> R) (l l' : list Material)
    (init : gmap string cell) :
  Forall2 (fun m m' => name m = name m' /\ f m = f' m') l l' ->
  fold_left (fun ap m => assign_number ap (name m) (f m)) l init
  = fold_left (fun ap m => assign_number ap (name m) (f' m)) l' init.
Proof.
  intros Hrel. revert init.
  induction Hrel as [| m m' l l' [Hn Hf] _ IH]; intros init; [reflexivity |].
  cbn [fold_left]. rewrite Hn, Hf. apply IH.
Qed.

Lemma normalizedData_scaled (materials materials' : list Material) :
  Forall2 related (processedMaterials materials) (processedMaterials materials') ->
  normalizedData materials = normalizedData materials'.
Proof.
  intros Hrel. unfold normalizedData. cbv zeta.
  apply map_ext_in. intros p Hp. unfold axisPoint. symmetry.
  apply (fold_related
           (fun mat => normalizedValue
                         (fst (extrema (processedMaterials materials')))
                         (snd (extrema (processedMaterials materials')))
                         (key p) (higherIsBetter p) mat)
           (fun mat => normalizedValue
                         (fst (extrema (processedMaterials materials)))
                         (snd (extrema (processedMaterials materials)))
                         (key p) (higherIsBetter p) mat)).
  assert (Hgen : forall l l',
            Forall2 related l l' ->
            (forall m, In m l -> In m (processedMaterials materials)) ->
            Forall2
              (fun m' m =>
                 name m' = name m
                 /\ normalizedValue
                      (fst (extrema (processedMaterials materials')))
                      (snd (extrema (processedMaterials materials')))
                      (key p) (higherIsBetter p) m'
                    = normalizedValue
                        (fst (extrema (processedMaterials materials)))
                        (snd (extrema (processedMaterials materials)))
                        (key p) (higherIsBetter p) m)
              l' l).
  { intros l l' Hl. induction Hl as [| m m' l l' Hmm _ IH]; intros Hsub;
      constructor.
    - split; [symmetry; apply Hmm |].
      apply (score_scaled_equal _ _ p m m' Hp Hrel);
        [apply Hsub; now left | exact Hmm].
    - apply IH. intros x Hx. apply Hsub. now right. }
  apply (Hgen _ _ Hrel). auto.
Qed.

End RadarScaling.

Lemma div_zero_test (f d : R) : 0 < f -> (d / f === 0) = (d === 0).
Proof.
  intros Hf. unfold num_eq.
  destruct (Req_EM_T (d / f) 0) as [Hz | Hnz], (Req_EM_T d 0) as [Hd | Hd];
    try reflexivity; exfalso.
  - apply Hd. apply (Rmult_eq_reg_r (/ f)); [| apply Rinv_neq_0_compat; lra].
    unfold Rdiv in Hz. lra.
  - apply Hnz. subst d. unfold Rdiv. ring.
Qed.

Lemma compare_factors_positive (selectedUnits : SelectedUnits) (fd fm fs : R) :
  CompareRoute.registered selectedUnits fd fm fs -> 0 < fd /\ 0 < fm /\ 0 < fs.
Proof.
  intros ((id_ & Hd & <-) & (im & Hm & <-) & (is_ & Hs & <-)).
  unfold ComparePage.densityUnits in Hd.
  unfold ComparePage.modulusUnits in Hm.
  unfold ComparePage.strengthUnits in Hs.
  cbn [lookup_unit] in Hd, Hm, Hs.
  repeat split.
  - repeat match type of Hd with
           | context [String.eqb ?a ?b] => destruct (String.eqb a b)
           end; try discriminate; injection Hd as <-; cbn [factor]; lra.
  - repeat match type of Hm with
           | context [String.eqb ?a ?b] => destruct (String.eqb a b)
           end; try discriminate; injection Hm as <-; cbn [factor]; lra.
  - repeat match type of Hs with
           | context [String.eqb ?a ?b] => destruct (String.eqb a b)
           end; try discriminate; injection Hs as <-; cbn [factor]; lra.
Qed.

(** What [process] leaves under each key. *)
Lemma process_plain (x : Radar.Material) (k : string) :
  k <> "specificStrength" /\ k <> "specificModulus" ->
  Radar.prop (Radar.process x) k = Radar.prop x k.
Proof.
  intros [Hs Hm]. apply String.eqb_neq in Hs, Hm.
  unfold Radar.process. cbv zeta.
  destruct (Radar.yieldStrength x), (Radar.youngsModulus x),
           (Radar.density x) as [d |];
    try destruct (d !== 0);
    unfold Radar.prop, Radar.set_specificModulus, Radar.set_specificStrength;
    cbn [Radar.density Radar.youngsModulus Radar.yieldStrength
         Radar.ultimateTensileStrength Radar.poissonsRatio Radar.shearModulus
         Radar.thermalExpansionCoefficient Radar.relativeCost
         Radar.specificStrength Radar.specificModulus];
    rewrite Hs, Hm; reflexivity.
Qed.

Lemma process_specificModulus (x : Radar.Material) :
  Radar.prop (Radar.process x) "specificModulus"
  = match Radar.youngsModulus x, Radar.density x with
    | Some e, Some d =>
        if d !== 0 then Some (e / d / 1e6) else Radar.specificModulus x
    | _, _ => Radar.specificModulus x
    end.
Proof.
  unfold Radar.process. cbv zeta.
  destruct (Radar.yieldStrength x), (Radar.youngsModulus x),
           (Radar.density x) as [d |];
    try destruct (d !== 0); reflexivity.
Qed.

Lemma process_specificStrength (x : Radar.Material) :
  Radar.prop (Radar.process x) "specificStrength"
  = match Radar.yieldStrength x, Radar.density x with
    | Some ys, Some d =>
        if d !== 0 then Some (ys / d / 1000) else Radar.specificStrength x
    | _, _ => Radar.specificStrength x
    end.
Proof.
  unfold Radar.process. cbv zeta.
  destruct (Radar.yieldStrength x), (Radar.youngsModulus x),
           (Radar.density x) as [d |];
    try destruct (d !== 0); reflexivity.
Qed.

Section UnitIndependence.

Variables fd fm fs fd' fm' fs' : R.
Hypotheses (Hfd : 0 < fd) (Hfm : 0 < fm) (Hfs : 0 < fs)
           (Hfd' : 0 < fd') (Hfm' : 0 < fm') (Hfs' : 0 < fs').

Local Abbreviation ratio := (CompareRoute.axis_ratio fd fm fs fd' fm' fs').

Lemma ratio_positive (p : Radar.RadarProperty) :
  In p Radar.radarProperties -> 0 < ratio (Radar.key p).
Proof.
  intros Hp. unfold Radar.radarProperties in Hp. cbn [In] in Hp.
  assert (forall a b, 0 < a -> 0 < b -> 0 < a / b).
  { intros a b Ha Hb. unfold Rdiv. apply Rmult_lt_0_compat; [exact Ha |].
    now apply Rinv_0_lt_compat. }
  repeat (destruct Hp as [<- | Hp];
          [unfold CompareRoute.axis_ratio;
           cbn [Radar.key String.eqb Ascii.eqb Bool.eqb];
           first [ lra
                 | apply H; assumption
                 | apply Rmult_lt_0_compat; apply H; assumption ] |]).
  destruct Hp.
Qed.

Lemma entries_related (m : CompareRoute.InferredMaterialData) :
  Radar.name (Radar.process (CompareRoute.converted_entry fd fm fs m))
  = Radar.name (Radar.process (CompareRoute.converted_entry fd' fm' fs' m))
  /\ forall p, In p Radar.radarProperties ->
       Radar.prop (Radar.process (CompareRoute.converted_entry fd' fm' fs' m))
         (Radar.key p)
       = Rmult (ratio (Radar.key p))
           <$> Radar.prop
                 (Radar.process (CompareRoute.converted_entry fd fm fs m))
                 (Radar.key p).
Proof.
  split; [now rewrite !process_name |].
  intros p Hp. unfold Radar.radarProperties in Hp. cbn [In] in Hp.
  destruct Hp as [<- | [<- | [<- | [<- | [<- | [<- | [<- | []]]]]]]];
    unfold CompareRoute.axis_ratio;
    cbn [Radar.key String.eqb Ascii.eqb Bool.eqb].
  - rewrite !process_plain by (split; discriminate). cbn.
    destruct (CompareRoute.youngsModulus m); cbn; [f_equal; field; lra |].
    reflexivity.
  - rewrite !process_plain by (split; discriminate). cbn.
    destruct (CompareRoute.ultimateTensileStrength m); cbn;
      [f_equal; field; lra | reflexivity].
  - rewrite !process_plain by (split; discriminate). cbn.
    destruct (CompareRoute.yieldStrength m); cbn;
      [f_equal; field; lra | reflexivity].
  - rewrite !process_plain by (split; discriminate). cbn.
    destruct (CompareRoute.density m); cbn;
      [f_equal; field; lra | reflexivity].
  - rewrite !process_specificModulus.
    cbn [CompareRoute.converted_entry Radar.youngsModulus Radar.density
         Radar.specificModulus].
    destruct (CompareRoute.youngsModulus m) as [e |],
             (CompareRoute.density m) as [d |];
      cbn [fmap option_fmap option_map]; try reflexivity.
    rewrite (div_zero_test fd), (div_zero_test fd') by assumption.
    destruct (d === 0) eqn:Hd0; cbn [negb fmap option_fmap option_map];
      [reflexivity |].
    apply num_eq_false in Hd0. f_equal. field. repeat split; lra.
  - rewrite !process_specificStrength.
    cbn [CompareRoute.converted_entry Radar.yieldStrength Radar.density
         Radar.specificStrength].
    destruct (CompareRoute.yieldStrength m) as [ys |],
             (CompareRoute.density m) as [d |];
      cbn [fmap option_fmap option_map]; try reflexivity.
    rewrite (div_zero_test fd), (div_zero_test fd') by assumption.
    destruct (d === 0) eqn:Hd0; cbn [negb fmap option_fmap option_map];
      [reflexivity |].
    apply num_eq_false in Hd0. f_equal. field. repeat split; lra.
  - rewrite !process_plain by (split; discriminate). cbn.
    destruct (CompareRoute.thermalExpansionCoefficient m) as [tec |];
      [| reflexivity].
    destruct (tec === 0); cbn; [reflexivity |]. f_equal. lra.
Qed.

End UnitIndependence.

(** X27.  In exact arithmetic the radar chart does not depend on the units
    selected on the compare page: for any two registered selections the
    chart data differ only by positive factors per axis, and the
    normalised data drawn by the radar chart are identical.  (In binary64
    the conversions round, so the scores of two selections agree up to
    rounding.) *)
Theorem radar_scores_unit_independent
    (selectedUnits selectedUnits' : SelectedUnits)
    (fd fm fs fd' fm' fs' : R)
    (materials : list CompareRoute.InferredMaterialData) :
  CompareRoute.registered selectedUnits fd fm fs ->
  CompareRoute.registered selectedUnits' fd' fm' fs' ->
  exists chart chart',
    CompareRoute.chartData selectedUnits materials = Outcome [] (Normal chart)
    /\ CompareRoute.chartData selectedUnits' materials
       = Outcome [] (Normal chart')
    /\ Radar.normalizedData chart = Radar.normalizedData chart'.
Proof.
  intros Hreg Hreg'.
  destruct (compare_factors_positive _ _ _ _ Hreg) as (Hfd & Hfm & Hfs).
  destruct (compare_factors_positive _ _ _ _ Hreg') as (Hfd' & Hfm' & Hfs').
  exists (map (CompareRoute.converted_entry fd fm fs) materials),
         (map (CompareRoute.converted_entry fd' fm' fs') materials).
  split; [apply chartData_registered; exact Hreg |].
  split; [apply chartData_registered; exact Hreg' |].
  apply (normalizedData_scaled (CompareRoute.axis_ratio fd fm fs fd' fm' fs')).
  - apply (ratio_positive fd fm fs fd' fm' fs'); assumption.
  - unfold Radar.processedMaterials. rewrite !map_map.
    induction materials as [| m ms IH]; constructor; [| exact IH].
    apply entries_related; assumption.
Qed.

Lemma radar_scores_unit_independent_witness :
  exists chart chart',
    CompareRoute.chartData CompareRoute.initial_units
      [CompareRoute.steel_row; CompareRoute.glass_row]
      = Outcome [] (Normal chart)
    /\ CompareRoute.chartData CompareRoute.imperial_units
         [CompareRoute.steel_row; CompareRoute.glass_row]
       = Outcome [] (Normal chart')
    /\ Radar.normalizedData chart = Radar.normalizedData chart'.
Proof.
  apply (radar_scores_unit_independent
           CompareRoute.initial_units CompareRoute.imperial_units
           1 1e9 1e6 16.0185 6.89476e6 6894.76).
  - repeat split; eexists; (split; [reflexivity |]); reflexivity.
  - repeat split; eexists; (split; [reflexivity |]); reflexivity.
Defined.

(** ** Unit conversion: instances *)

Lemma compare_page_canonical_witness :
  exists info,
    lookup_unit (Canonical.table Density) "lb/ft³" = Some info
    /\ ComparePage.calculateConvertedValue
         (Canonical.selecting Density "lb/ft³") (Some 7830) Density
       = Outcome [] (Normal (Some (7830 / factor info)))
    /\ ComparePage.formatConvertedValueForDisplay
         (Canonical.selecting Density "lb/ft³") (Some 7830) Density
       = Outcome []
           (Normal (LocaleString (7830 / factor info) 0 (precision info))).
Proof.
  apply (compare_page_canonical Density "lb/ft³" 7830).
  cbn. tauto.
Defined.

Lemma materials_table_canonical_witness :
  exists info,
    lookup_unit (Canonical.table Modulus) "ksi" = Some info
    /\ MaterialsTable.convertValue
         (Canonical.selecting Modulus "ksi") (Some 200e9) Modulus
       = Outcome []
           (Normal (LocaleString (200e9 / factor info) 0 (precision info))).
Proof.
  apply (materials_table_canonical Modulus "ksi" 200e9).
  - cbn. tauto.
  - left. discriminate.
Defined.

Lemma materials_table_density_disagrees_witness :
  exists shown canonical,
    MaterialsTable.convertValue
      (Canonical.selecting Density "lb/ft³") (Some 2400) Density
      = Outcome [] (Normal (LocaleString shown 0 3))
    /\ ComparePage.calculateConvertedValue
         (Canonical.selecting Density "lb/ft³") (Some 2400) Density
       = Outcome [] (Normal (Some canonical))
    /\ shown <> canonical.
Proof.
  apply (materials_table_density_disagrees "lb/ft³" 2400).
  - lra.
  - right. reflexivity.
Defined.
